(** * AngularFirestoreCollection: the change-stream views of a live query

    A shallow embedding of [src/firestore/collection/collection.ts].  A
    collection wraps a Firestore query and exposes its live-query listener as
    four RxJS streams ([stateChanges], [auditTrail], [snapshotChanges],
    [valueChanges]) and a one-shot read ([get]).

    An observable is represented by what one subscription has seen of it: the
    values delivered so far, in order, and how the stream stands (still live,
    completed, or failed with an error).  The RxJS operators used by the source
    ([map], [filter], [scan], [from], [observeOn]) are functions on that
    representation. *)

From Stdlib Require Import ZArith Lia.
From stdpp Require Import base option list strings gmap.

Open Scope Z_scope.

(** ** Errors *)

(** [StoreTransportError]: an error of the store's listener or read call.
    [MalformedNotificationError]: a change index that does not fit the
    reconstructed sequence. *)
Inductive Failure : Type :=
  | StoreTransportError (code : string)
  | MalformedNotificationError.

Inductive result (A : Type) : Type :=
  | Ok (a : A)
  | Throw (e : Failure).
Arguments Ok {A} a.
Arguments Throw {A} e.

#[global] Instance result_ret : MRet result := fun A a => Ok a.

#[global] Instance result_bind : MBind result := fun A B k r =>
  match r with
  | Ok a => k a
  | Throw e => Throw e
  end.

(** ** RxJS *)

Module Rx.

Inductive Ending : Type :=
  | Live
  | Completed
  | Failed (e : Failure).

Record Observable (A : Type) : Type := Obs {
  values : list A;
  ending : Ending
}.
Arguments Obs {A} values ending.
Arguments values {A} o.
Arguments ending {A} o.

(** [map(f)] *)
Definition map {A B : Type} (f : A → B) (o : Observable A) : Observable B :=
  Obs (f <$> values o) (ending o).

(** [filter(p)] *)
Definition filter {A : Type} (p : A → bool) (o : Observable A) : Observable A :=
  Obs (List.filter p (values o)) (ending o).

(** The accumulations of [scan(f, seed)]: every input value yields the new
    accumulator; an accumulator call that throws ends the stream with the
    error, and later inputs are not looked at. *)
Fixpoint scan_from {A B : Type} (f : B → A → result B) (acc : B)
    (inputs : list A) (e : Ending) : Observable B :=
  match inputs with
  | [] => Obs [] e
  | x :: rest =>
      match f acc x with
      | Throw err => Obs [] (Failed err)
      | Ok acc' =>
          let o := scan_from f acc' rest e in
          Obs (acc' :: values o) (ending o)
      end
  end.

(** [scan(f, seed)] *)
Definition scan {A B : Type} (f : B → A → result B) (seed : B)
    (o : Observable A) : Observable B :=
  scan_from f seed (values o) (ending o).

(** A settled or pending promise. *)
Inductive Promise (A : Type) : Type :=
  | Resolved (a : A)
  | Rejected (e : Failure)
  | Pending.
Arguments Resolved {A} a.
Arguments Rejected {A} e.
Arguments Pending {A}.

(** [from(promise)]: the resolved value and completion, or the rejection as
    the stream's error. *)
Definition from {A : Type} (p : Promise A) : Observable A :=
  match p with
  | Resolved a => Obs [a] Completed
  | Rejected e => Obs [] (Failed e)
  | Pending => Obs [] Live
  end.

Inductive SchedulerLike : Type :=
  | ZoneScheduler (inside : bool).

(** [observeOn(scheduler)] re-schedules every notification and changes none. *)
Definition observeOn {A : Type} (s : SchedulerLike) (o : Observable A) : Observable A :=
  o.

End Rx.

Abbreviation Observable := Rx.Observable.
Abbreviation values := Rx.values.
Abbreviation ending := Rx.ending.

(** [o.pipe(f, g, ...)] *)
Notation "o |> f" := (f o) (at level 50, left associativity, only parsing).

(** ** Firestore interfaces *)

Inductive DocumentChangeType : Type :=
  | added
  | removed
  | modified.

#[global] Instance DocumentChangeType_eq_dec : EqDecision DocumentChangeType.
Proof. solve_decision. Defined.

Inductive JsValue : Type :=
  | JsString (s : string)
  | JsNumber (n : Z)
  | JsBool (b : bool)
  | JsNull.

(** [DocumentData]: an object from field names to values. *)
Abbreviation DocumentData := (gmap string JsValue).

(** [{...a, ...b}]: the properties of [b] win over those of [a]. *)
Definition spread (a b : DocumentData) : DocumentData := b ∪ a.

(** A [QueryDocumentSnapshot]: [a.id] and [a.data()]. *)
Record QueryDocumentSnapshot : Type := {
  doc_id : string;
  doc_data : DocumentData
}.

(** A [DocumentChange]: [change.type], [change.doc], [change.oldIndex],
    [change.newIndex]. *)
Record DocumentChange : Type := {
  change_type : DocumentChangeType;
  doc : QueryDocumentSnapshot;
  oldIndex : Z;
  newIndex : Z
}.

(** A [QuerySnapshot]: [snapshot.docs] and [snapshot.docChanges()]. *)
Record QuerySnapshot : Type := {
  docs : list QueryDocumentSnapshot;
  snapshot_docChanges : list DocumentChange
}.

(** [Action<T>] and [DocumentChangeAction<T>]: [{ type, payload }]. *)
Record Action (K P : Type) : Type := {
  type : K;
  payload : P
}.
Arguments type {K P} a.
Arguments payload {K P} a.

Abbreviation DocumentChangeAction := (Action DocumentChangeType DocumentChange).

Inductive GetOptionsSource : Type :=
  | source_default
  | source_server
  | source_cache.

(** A [Query], seen from one subscription: the notifications its live-query
    listener delivers, and what a one-shot [query.get(options)] settles to. *)
Record Query : Type := {
  onSnapshot : Observable QuerySnapshot;
  query_get : option GetOptionsSource → Rx.Promise QuerySnapshot
}.

Record Schedulers : Type := {
  outsideAngular : Rx.SchedulerLike;
  insideAngular : Rx.SchedulerLike
}.

Record AngularFirestore : Type := {
  schedulers : Schedulers
}.

(** Modelled from the spec: [keepUnstableUntilFirst] of the [AngularFirestore]
    service is not in this file.  Section 4.4: it holds the framework unstable
    until the first value or error has passed through, and every item flows
    through it. *)
Definition keepUnstableUntilFirst {A : Type} (afs : AngularFirestore)
    (o : Observable A) : Observable A :=
  o.

(** Modelled from the spec: [fromCollectionRef] of [../observable/fromRef] is
    not in this file.  Section 6: every notification of the listener is
    delivered, wrapped as the payload of a [value] action. *)
Definition fromCollectionRef (query : Query) (scheduler : Rx.SchedulerLike)
    : Observable (Action string QuerySnapshot) :=
  onSnapshot query |> Rx.map (fun snap => {| type := "value"%string; payload := snap |}).

(** A change of the store as a change record: [{ type: change.type, payload:
    change }]. *)
Definition as_action (change : DocumentChange) : DocumentChangeAction :=
  {| type := change_type change; payload := change |}.

(** The batch the diff emitter makes of one notification. *)
Definition batch_of (snap : QuerySnapshot) : list DocumentChangeAction :=
  as_action <$> snapshot_docChanges snap.

(** Modelled from the spec: [docChanges] of [./changes] is not in this file.
    Section 4.1: one notification becomes one batch, a change record per
    change the store reports, in the store's order, each tagged with its
    change type. *)
Definition docChanges (query : Query) (scheduler : Rx.SchedulerLike)
    : Observable (list DocumentChangeAction) :=
  fromCollectionRef query scheduler
  |> Rx.map (fun action => batch_of (payload action)).

(** ** collection.ts *)

(** [events.indexOf(t)] *)
Fixpoint indexOf_from (events : list DocumentChangeType) (t : DocumentChangeType)
    (i : Z) : Z :=
  match events with
  | [] => -1
  | e :: rest => if decide (e = t) then i else indexOf_from rest t (i + 1)
  end.

Definition indexOf (events : list DocumentChangeType) (t : DocumentChangeType) : Z :=
  indexOf_from events t 0.

Definition validateEventsArray (events : option (list DocumentChangeType))
    : list DocumentChangeType :=
  match events with
  | Some ((_ :: _) as events) => events
  | _ => [added; removed; modified]
  end.

Record AngularFirestoreCollection : Type := {
  query : Query;
  afs : AngularFirestore
}.

Definition stateChanges (this : AngularFirestoreCollection)
    (events : option (list DocumentChangeType))
    : Observable (list DocumentChangeAction) :=
  match events with
  | Some ((_ :: _) as events) =>
      docChanges (query this) (outsideAngular (schedulers (afs this)))
      |> Rx.map (fun actions =>
           List.filter (fun change => indexOf events (type change) >? -1) actions)
      |> Rx.filter (fun changes => Z.of_nat (length changes) >? 0)
      |> keepUnstableUntilFirst (afs this)
  | _ =>
      docChanges (query this) (outsideAngular (schedulers (afs this)))
      |> keepUnstableUntilFirst (afs this)
  end.

(** [(current, action) => [...current, ...action]] *)
Definition append_batch (current action : list DocumentChangeAction)
    : result (list DocumentChangeAction) :=
  Ok (current ++ action).

Definition auditTrail (this : AngularFirestoreCollection)
    (events : option (list DocumentChangeType))
    : Observable (list DocumentChangeAction) :=
  stateChanges this events |> Rx.scan append_batch [].

(** *** The ordered state reconstructor behind [sortedChanges] *)

Definition wanted (events : list DocumentChangeType) (change : DocumentChangeAction)
    : bool :=
  indexOf events (type change) >? -1.

(** A change index has to name a slot of the sequence (to delete it) or a gap
    of it (to insert there); anything else is a malformed notification. *)
Definition removeSlot {A : Type} (i : Z) (current : list A) : result (list A) :=
  if (0 <=? i) && (i <? Z.of_nat (length current))
  then Ok (delete (Z.to_nat i) current)
  else Throw MalformedNotificationError.

Definition insertSlot {A : Type} (i : Z) (x : A) (current : list A) : result (list A) :=
  if (0 <=? i) && (i <=? Z.of_nat (length current))
  then Ok (take (Z.to_nat i) current ++ x :: drop (Z.to_nat i) current)
  else Throw MalformedNotificationError.

(** Modelled from the spec: the reconstructor of [./changes] is not in this
    file.  Section 4.2: Removed at [oldIndex] deletes that slot; Added at
    [newIndex] inserts at that slot; Modified removes from [oldIndex] and
    re-inserts at [newIndex].  Section 7: an index inconsistent with the
    current sequence is fatal to the subscription. *)
Definition applyChange (current : list DocumentChangeAction)
    (change : DocumentChangeAction) : result (list DocumentChangeAction) :=
  match type change with
  | removed => removeSlot (oldIndex (payload change)) current
  | added => insertSlot (newIndex (payload change)) change current
  | modified =>
      rest ← removeSlot (oldIndex (payload change)) current;
      insertSlot (newIndex (payload change)) change rest
  end.

(** Changes are applied in the order the store delivered them. *)
Fixpoint applyBatch (current : list DocumentChangeAction)
    (batch : list DocumentChangeAction) : result (list DocumentChangeAction) :=
  match batch with
  | [] => Ok current
  | change :: rest => next ← applyChange current change; applyBatch next rest
  end.

(** Modelled from the spec: [sortedChanges] of [./changes] is not in this
    file.  Sections 2 and 4.2: the diff emitter's batches, filtered to the
    requested event types, are applied to a sequence seeded empty, and the
    full ordered sequence is emitted after every batch. *)
Definition sortedChanges (query : Query) (events : list DocumentChangeType)
    (scheduler : Rx.SchedulerLike) : Observable (list DocumentChangeAction) :=
  docChanges query scheduler
  |> Rx.map (List.filter (wanted events))
  |> Rx.scan applyBatch [].

Definition snapshotChanges (this : AngularFirestoreCollection)
    (events : option (list DocumentChangeType))
    : Observable (list DocumentChangeAction) :=
  let validatedEvents := validateEventsArray events in
  let scheduledSortedChanges :=
    sortedChanges (query this) validatedEvents (outsideAngular (schedulers (afs this))) in
  scheduledSortedChanges |> keepUnstableUntilFirst (afs this).

(** [options: {idField?: K}] *)
Record ValueChangesOptions : Type := {
  idField : option string
}.

(** [if (options.idField)] takes the merging branch for a defined, non-empty
    field name: [undefined] and the empty string are falsy. *)
Definition valueChanges (this : AngularFirestoreCollection)
    (options : option ValueChangesOptions) : Observable (list DocumentData) :=
  let options := default {| idField := None |} options in
  fromCollectionRef (query this) (outsideAngular (schedulers (afs this)))
  |> Rx.map (fun actions =>
       (fun a =>
          match idField options with
          | Some ((String _ _) as key) =>
              spread (spread ∅ (doc_data a)) {[ key := JsString (doc_id a) ]}
          | _ => doc_data a
          end) <$> docs (payload actions))
  |> keepUnstableUntilFirst (afs this).

Definition get (this : AngularFirestoreCollection) (options : option GetOptionsSource)
    : Observable QuerySnapshot :=
  Rx.from (query_get (query this) options)
  |> Rx.observeOn (insideAngular (schedulers (afs this))).

Close Scope Z_scope.

(** ** What the store declares

    The store's side of the notification contract, stated on the result list
    itself and by position, independently of how any consumer replays it: a
    change record relates the result list just before the change to the one
    just after it. *)

Inductive store_change
    : list QueryDocumentSnapshot → DocumentChange → list QueryDocumentSnapshot → Prop :=
  | store_added before after d :
      store_change (before ++ after)
        {| change_type := added; doc := d;
           oldIndex := (-1)%Z; newIndex := Z.of_nat (length before) |}
        (before ++ d :: after)
  | store_removed before after d0 d :
      doc_id d0 = doc_id d →
      store_change (before ++ d0 :: after)
        {| change_type := removed; doc := d;
           oldIndex := Z.of_nat (length before); newIndex := (-1)%Z |}
        (before ++ after)
  | store_modified before after before' after' d0 d :
      doc_id d0 = doc_id d →
      before ++ after = before' ++ after' →
      store_change (before ++ d0 :: after)
        {| change_type := modified; doc := d;
           oldIndex := Z.of_nat (length before);
           newIndex := Z.of_nat (length before') |}
        (before' ++ d :: after').

(** The changes of one notification lead from the previous result list to the
    notification's own. *)
Inductive store_batch
    : list QueryDocumentSnapshot → list DocumentChange → list QueryDocumentSnapshot → Prop :=
  | store_batch_nil result : store_batch result [] result
  | store_batch_cons result change result' changes result'' :
      store_change result change result' →
      store_batch result' changes result'' →
      store_batch result (change :: changes) result''.

(** A run of notifications of one listener, starting from the result list
    [result]. *)
Inductive store_run : list QueryDocumentSnapshot → list QuerySnapshot → Prop :=
  | store_run_nil result : store_run result []
  | store_run_cons result snap rest :
      store_batch result (snapshot_docChanges snap) (docs snap) →
      store_run (docs snap) rest →
      store_run result (snap :: rest).

(** ** Definitions used by the statements *)

(** The documents of a sequence of change records, in order. *)
Definition documents (changes : list DocumentChangeAction) : list QueryDocumentSnapshot :=
  (fun change => doc (payload change)) <$> changes.

(** An events list that names every change type. *)
Definition covers_all (events : list DocumentChangeType) : Prop :=
  ∀ t, t ∈ events.

Definition nonempty {A : Type} (l : list A) : bool :=
  match l with
  | [] => false
  | _ :: _ => true
  end.

(** What the filtering branch of [stateChanges] makes of one batch: the
    wanted records, or no emission when none is left. *)
Definition filtered_emission (events : list DocumentChangeType)
    (batch : list DocumentChangeAction) : option (list DocumentChangeAction) :=
  let kept := List.filter (wanted events) batch in
  if nonempty kept then Some kept else None.

(** ** Sample documents and listeners *)

Module Fixtures.

Definition services : AngularFirestore :=
  {| schedulers := {| outsideAngular := Rx.ZoneScheduler false;
                      insideAngular := Rx.ZoneScheduler true |} |}.

(** A collection whose listener has delivered [snaps] and is still live. *)
Definition listening (snaps : list QuerySnapshot) : AngularFirestoreCollection :=
  {| query := {| onSnapshot := Rx.Obs snaps Rx.Live;
                 query_get := fun _ => Rx.Pending |};
     afs := services |}.

(** A collection whose one-shot read fails with [e]. *)
Definition unreachable (e : Failure) : AngularFirestoreCollection :=
  {| query := {| onSnapshot := Rx.Obs [] Rx.Live;
                 query_get := fun _ => Rx.Rejected e |};
     afs := services |}.

Definition named (id name : string) : QueryDocumentSnapshot :=
  {| doc_id := id; doc_data := {[ "name"%string := JsString name ]} |}.

Definition docA := named "A" "a".
Definition docB := named "B" "b".
Definition docC := named "C" "c".

Definition Added (d : QueryDocumentSnapshot) (new : Z) : DocumentChange :=
  {| change_type := added; doc := d; oldIndex := (-1)%Z; newIndex := new |}.
Definition Removed (d : QueryDocumentSnapshot) (old : Z) : DocumentChange :=
  {| change_type := removed; doc := d; oldIndex := old; newIndex := (-1)%Z |}.
Definition Modified (d : QueryDocumentSnapshot) (old new : Z) : DocumentChange :=
  {| change_type := modified; doc := d; oldIndex := old; newIndex := new |}.

(** The first notification of a query with no match: no document, no change. *)
Definition quiet : QuerySnapshot :=
  {| docs := []; snapshot_docChanges := [] |}.

(** Add A, B, C at 0, 1, 2; remove B at 1; move A from 0 to 1. *)
Definition first : QuerySnapshot :=
  {| docs := [docA; docB; docC];
     snapshot_docChanges := [Added docA 0; Added docB 1; Added docC 2] |}.
Definition second : QuerySnapshot :=
  {| docs := [docA; docC]; snapshot_docChanges := [Removed docB 1] |}.
Definition third : QuerySnapshot :=
  {| docs := [docC; docA]; snapshot_docChanges := [Modified docA 0 1] |}.

Definition scenario : list QuerySnapshot := [first; second; third].

(** [events = []] *)
Definition empty_events : option (list DocumentChangeType) := Some [].

End Fixtures.

Definition is_added (change : DocumentChangeAction) : bool :=
  bool_decide (type change = added).

(** What the filter [['added']] makes of one batch of the unfiltered view. *)
Definition added_emission (batch : list DocumentChangeAction)
    : option (list DocumentChangeAction) :=
  let kept := List.filter is_added batch in
  if nonempty kept then Some kept else None.

(** The emissions of [snapshotChanges], from the notifications alone. *)
Definition reconstruct (events : option (list DocumentChangeType))
    (snaps : list QuerySnapshot) : list (list DocumentChangeAction) :=
  values (Rx.scan_from applyBatch []
            (List.filter (wanted (validateEventsArray events)) <$> (batch_of <$> snaps))
            Rx.Live).

(** The data of a document with its id under the field [key]. *)
Definition with_id (key : string) (a : QueryDocumentSnapshot) : DocumentData :=
  <[key := JsString (doc_id a)]> (doc_data a).

(** A field of the first object of the first emission. *)
Definition field_of_first (key : string) (emissions : list (list DocumentData))
    : option JsValue :=
  objects ← emissions !! 0; object ← objects !! 0; object !! key.

Module ValueFixtures.

(** The result list [[{name:'x'}]] with document id ["doc1"]. *)
Definition doc1 : QueryDocumentSnapshot :=
  {| doc_id := "doc1"; doc_data := {[ "name"%string := JsString "x" ]} |}.

Definition results : QuerySnapshot :=
  {| docs := [doc1]; snapshot_docChanges := [Fixtures.Added doc1 0] |}.

(** A document that has a field [id] of its own. *)
Definition doc2 : QueryDocumentSnapshot :=
  {| doc_id := "doc2";
     doc_data := {[ "id"%string := JsNumber 7; "name"%string := JsString "y" ]} |}.

Definition results2 : QuerySnapshot :=
  {| docs := [doc2]; snapshot_docChanges := [Fixtures.Added doc2 0] |}.

(** A document whose data has a field with the empty name. *)
Definition doc3 : QueryDocumentSnapshot :=
  {| doc_id := "doc3"; doc_data := {[ ""%string := JsNumber 7 ]} |}.

Definition results3 : QuerySnapshot :=
  {| docs := [doc3]; snapshot_docChanges := [Fixtures.Added doc3 0] |}.

End ValueFixtures.

(** ** Subscriptions and their state

    The sequence a reconstructor maintains is a mutable array.  The arrays of
    a running program live in one heap, and a subscription holds the location
    of its own; two subscriptions holding the same location would see each
    other's changes. *)

Abbreviation Loc := nat.

(** One subscription to [snapshotChanges(events)] of a collection. *)
Record Subscription : Type := {
  source : AngularFirestoreCollection;
  request : option (list DocumentChangeType);
  (** where its ordered sequence lives *)
  sequence_at : Loc;
  (** the notifications its own listener has still to deliver *)
  incoming : list QuerySnapshot;
  (** the ordered snapshots it has emitted *)
  emitted : list (list DocumentChangeAction);
  (** the error that ended it *)
  failure : option Failure
}.

Record Runtime : Type := {
  heap : list (list DocumentChangeAction);
  subscriptions : list Subscription
}.

Definition boot : Runtime := {| heap := []; subscriptions := [] |}.

(** Modelled from the spec: the state kept by [sortedChanges] of [./changes]
    is not in this file.  Sections 3, 4.2 and 5: the ordered sequence is
    created at subscription start, seeded empty, private to the subscription,
    and every subscription opens a listener of its own. *)
Definition subscribe (this : AngularFirestoreCollection)
    (events : option (list DocumentChangeType)) (w : Runtime) : Runtime :=
  {| heap := heap w ++ [[]];
     subscriptions :=
       subscriptions w
       ++ [{| source := this; request := events;
              sequence_at := length (heap w);
              incoming := values (onSnapshot (query this));
              emitted := []; failure := None |}] |}.

(** The subscription after one more notification: the new sequence was
    emitted and [rest] is still to come. *)
Definition advanced (s : Subscription) (next : list DocumentChangeAction)
    (rest : list QuerySnapshot) : Subscription :=
  {| source := source s; request := request s; sequence_at := sequence_at s;
     incoming := rest; emitted := emitted s ++ [next]; failure := None |}.

(** The subscription ended by an error: its listener is torn down. *)
Definition failed (s : Subscription) (e : Failure) : Subscription :=
  {| source := source s; request := request s; sequence_at := sequence_at s;
     incoming := []; emitted := emitted s; failure := Some e |}.

(** Modelled from the spec: the accumulation inside [sortedChanges] of
    [./changes] is not in this file.  Sections 4.2 and 7: the listener of
    subscription [i] delivers its next notification; the batch, filtered to
    the validated events, is applied to the array at the subscription's
    location, in place; the array's new content is emitted, or the
    subscription ends with the error of a malformed batch. *)
Definition deliver (i : nat) (w : Runtime) : Runtime :=
  match subscriptions w !! i with
  | Some s =>
      match failure s, incoming s, heap w !! sequence_at s with
      | None, snap :: rest, Some current =>
          match applyBatch current
                  (List.filter (wanted (validateEventsArray (request s))) (batch_of snap)) with
          | Ok next =>
              {| heap := <[sequence_at s := next]> (heap w);
                 subscriptions := <[i := advanced s next rest]> (subscriptions w) |}
          | Throw e =>
              {| heap := heap w;
                 subscriptions := <[i := failed s e]> (subscriptions w) |}
          end
      | _, _, _ => w
      end
  | None => w
  end.

(** What happens in a program: a consumer subscribes, or a listener
    notifies. *)
Inductive Step : Type :=
  | Subscribe (this : AngularFirestoreCollection)
      (events : option (list DocumentChangeType))
  | Deliver (i : nat).

Definition step (w : Runtime) (st : Step) : Runtime :=
  match st with
  | Subscribe this events => subscribe this events w
  | Deliver i => deliver i w
  end.

Definition run (steps : list Step) (w : Runtime) : Runtime :=
  foldl step w steps.

(** The notifications of a subscription's listener, cut down to the batches
    its reconstructor applies. *)
Definition wanted_batches (s : Subscription) (snaps : list QuerySnapshot)
    : list (list DocumentChangeAction) :=
  List.filter (wanted (validateEventsArray (request s))) <$> (batch_of <$> snaps).

(** What a subscription needs to be in step with its stream: its sequence is
    at the location of its own, it has emitted a first part of the stream of
    [snapshotChanges], and the array at its location is the state from which
    the notifications still to come give the rest. *)
Definition in_step (h : list (list DocumentChangeAction)) (i : nat)
    (s : Subscription) : Prop :=
  sequence_at s = i
  ∧ match failure s with
    | None =>
        ∃ current,
          h !! i = Some current
          ∧ reconstruct (request s) (values (onSnapshot (query (source s))))
            = emitted s
              ++ values (Rx.scan_from applyBatch current
                           (wanted_batches s (incoming s)) Rx.Live)
    | Some _ =>
        incoming s = []
        ∧ reconstruct (request s) (values (onSnapshot (query (source s)))) = emitted s
    end.

Definition all_in_step (w : Runtime) : Prop :=
  length (heap w) = length (subscriptions w)
  ∧ ∀ i s, subscriptions w !! i = Some s → in_step (heap w) i s.

(** Two subscriptions on one array, as a seed shared between subscriptions
    would give. *)
Definition sharing (this : AngularFirestoreCollection)
    (events : option (list DocumentChangeType)) : Runtime :=
  let s := {| source := this; request := events; sequence_at := 0;
              incoming := values (onSnapshot (query this));
              emitted := []; failure := None |} in
  {| heap := [[]]; subscriptions := [s; s] |}.

Module RunFixtures.

(** Two consumers subscribe to the scenario's collection, the second after
    the first has had a notification, and the two listeners notify in turn. *)
Definition interleaved : list Step :=
  [Subscribe (Fixtures.listening Fixtures.scenario) None;
   Deliver 0;
   Subscribe (Fixtures.listening Fixtures.scenario) None;
   Deliver 1; Deliver 1; Deliver 0; Deliver 1; Deliver 0].

End RunFixtures.

(** ** Definitions used by the further properties *)

(** The collection [this] on a listener that has delivered [snaps] instead. *)
Definition delivering (this : AngularFirestoreCollection) (snaps : list QuerySnapshot)
    : AngularFirestoreCollection :=
  {| query := {| onSnapshot := Rx.Obs snaps (ending (onSnapshot (query this)));
                 query_get := query_get (query this) |};
     afs := afs this |}.

(** The type of a change record is among [events]. *)
Definition requested (events : list DocumentChangeType) (change : DocumentChangeAction)
    : bool :=
  bool_decide (type change ∈ events).

(** The object [valueChanges] makes of one document. *)
Definition document_value (options : option ValueChangesOptions)
    (a : QueryDocumentSnapshot) : DocumentData :=
  match options with
  | Some {| idField := Some ((String _ _) as key) |} => with_id key a
  | _ => doc_data a
  end.

(** ** The operators *)

Section Operators.
Context {A B : Type}.

Lemma values_map (f : A → B) (o : Observable A) :
  values (Rx.map f o) = f <$> values o.
Proof. reflexivity. Qed.

Lemma ending_map (f : A → B) (o : Observable A) :
  ending (Rx.map f o) = ending o.
Proof. reflexivity. Qed.

Lemma filter_all (p : A → bool) (l : list A) :
  Forall (fun x => p x = true) l → List.filter p l = l.
Proof.
  induction 1 as [|x l Hx _ IH]; simpl; [done|]. by rewrite Hx, IH.
Qed.

End Operators.

Lemma length_positive {A : Type} (l : list A) :
  (Z.of_nat (length l) >? 0)%Z = nonempty l.
Proof. destruct l; simpl; [done|]. apply Z.gtb_lt. lia. Qed.

Lemma indexOf_from_found events t i :
  (0 ≤ i)%Z → (indexOf_from events t i >? -1)%Z = bool_decide (t ∈ events).
Proof.
  revert i. induction events as [|e events IH]; intros i Hi; cbn [indexOf_from].
  - by rewrite bool_decide_eq_false_2 by apply not_elem_of_nil.
  - destruct (decide (e = t)) as [->|He].
    + rewrite bool_decide_eq_true_2 by apply list_elem_of_here.
      apply Z.gtb_lt. lia.
    + rewrite IH by lia. apply bool_decide_ext. rewrite elem_of_cons. intuition congruence.
Qed.

(** [events.indexOf(t) > -1] is membership. *)
Lemma wanted_elem_of events change :
  wanted events change = bool_decide (type change ∈ events).
Proof. unfold wanted, indexOf. by apply indexOf_from_found. Qed.

Lemma wanted_covers_all events batch :
  covers_all events → List.filter (wanted events) batch = batch.
Proof.
  intros Hall. apply filter_all, Forall_forall. intros change _.
  rewrite wanted_elem_of. by apply bool_decide_eq_true_2.
Qed.

(** ** The raw deltas *)

Lemma values_docChanges q s :
  values (docChanges q s) = batch_of <$> values (onSnapshot q).
Proof.
  unfold docChanges, fromCollectionRef. rewrite !values_map, <- list_fmap_compose.
  reflexivity.
Qed.

Lemma stateChanges_unset this events :
  events = None ∨ events = Some [] →
  stateChanges this events
  = docChanges (query this) (outsideAngular (schedulers (afs this))).
Proof. by intros [-> | ->]. Qed.

Lemma values_stateChanges_filtering this e events :
  values (stateChanges this (Some (e :: events)))
  = omap (filtered_emission (e :: events)) (batch_of <$> values (onSnapshot (query this))).
Proof.
  unfold stateChanges, keepUnstableUntilFirst, Rx.filter.
  cbn [Rx.values]. rewrite values_map, values_docChanges.
  generalize (batch_of <$> values (onSnapshot (query this))).
  intros batches. induction batches as [|b batches IH]; [done|].
  rewrite fmap_cons. cbn [List.filter omap list_omap].
  rewrite IH, length_positive. unfold filtered_emission, wanted.
  by destruct (nonempty _).
Qed.

Lemma ending_stateChanges this events :
  ending (stateChanges this events) = ending (onSnapshot (query this)).
Proof. by destruct events as [[|e events]|]. Qed.

Lemma filtered_emission_nonempty events batch kept :
  filtered_emission events batch = Some kept → kept ≠ [].
Proof.
  unfold filtered_emission. destruct (List.filter _ _) eqn:E; simpl; [done|].
  by intros [= <-].
Qed.

Lemma stateChanges_filtering_nonempty this e es :
  Forall (fun batch => batch ≠ []) (values (stateChanges this (Some (e :: es)))).
Proof.
  rewrite values_stateChanges_filtering. apply Forall_forall.
  intros kept [batch [_ Hkept]]%list_elem_of_omap.
  by eapply filtered_emission_nonempty.
Qed.

Example validateEventsArray_samples :
  validateEventsArray (Some [removed; added]) = [removed; added]
  ∧ validateEventsArray (Some []) = [added; removed; modified]
  ∧ validateEventsArray None = [added; removed; modified].
Proof. repeat split. Qed.

Example stateChanges_sample :
  documents <$> values (stateChanges (Fixtures.listening Fixtures.scenario)
                          (Some [removed; modified]))
  = [[Fixtures.docB]; [Fixtures.docA]].
Proof. reflexivity. Qed.

(** C9. With the events argument absent or empty, [stateChanges] is the
    [docChanges] stream itself: one emission per notification, each batch as
    the diff emitter made it, an empty batch included; and the [length > 0]
    guard belongs to the other branch only, which a non-empty events array
    selects and which emits no empty batch. *)
Theorem stateChanges_unset_forwards_docChanges this events :
  events = None ∨ events = Some [] →
  stateChanges this events
    = docChanges (query this) (outsideAngular (schedulers (afs this)))
  ∧ values (stateChanges this events) = batch_of <$> values (onSnapshot (query this))
  ∧ (∀ snap, snap ∈ values (onSnapshot (query this)) →
       snapshot_docChanges snap = [] → [] ∈ values (stateChanges this events))
  ∧ (∀ e es, Forall (fun batch => batch ≠ [])
               (values (stateChanges this (Some (e :: es))))).
Proof.
  intros Hunset. rewrite (stateChanges_unset _ _ Hunset), values_docChanges.
  repeat split.
  - intros snap Hin Hnone. apply list_elem_of_fmap. exists snap. split; [|done].
    unfold batch_of. by rewrite Hnone.
  - apply stateChanges_filtering_nonempty.
Qed.

Lemma stateChanges_unset_forwards_docChanges_witness :
  (Fixtures.empty_events = None ∨ Fixtures.empty_events = Some [])
  ∧ values (stateChanges (Fixtures.listening [Fixtures.first; Fixtures.quiet])
              Fixtures.empty_events)
    = batch_of <$> [Fixtures.first; Fixtures.quiet].
Proof.
  split; [by right|].
  apply (stateChanges_unset_forwards_docChanges
           (Fixtures.listening [Fixtures.first; Fixtures.quiet]) Fixtures.empty_events).
  by right.
Defined.

(** C2, as stated, fails: with no events argument the batch of a notification
    that reports no change is emitted, empty. *)
Lemma stateChanges_emits_empty_batch :
  ¬ (∀ this events,
       Forall (fun batch => batch ≠ []) (values (stateChanges this events))).
Proof.
  intros Hnever.
  specialize (Hnever (Fixtures.listening [Fixtures.quiet]) None).
  by apply Forall_inv in Hnever.
Qed.

(** C2, amended. For every non-empty events argument [stateChanges] emits,
    per notification, the records of the batch whose type is requested, and
    nothing at all when none is left: it never emits an empty batch. *)
Theorem stateChanges_filtering_never_empty this e es :
  values (stateChanges this (Some (e :: es)))
    = omap (filtered_emission (e :: es)) (batch_of <$> values (onSnapshot (query this)))
  ∧ Forall (fun batch => batch ≠ []) (values (stateChanges this (Some (e :: es)))).
Proof.
  split; [apply values_stateChanges_filtering | apply stateChanges_filtering_nonempty].
Qed.

(** ** The filtering law *)

Lemma wanted_added change : wanted [added] change = is_added change.
Proof.
  unfold wanted, indexOf, is_added. cbn [indexOf_from].
  destruct (type change); reflexivity.
Qed.

Lemma filtered_emission_added batch :
  filtered_emission [added] batch = added_emission batch.
Proof.
  unfold filtered_emission, added_emission.
  by rewrite (List.filter_ext _ _ wanted_added).
Qed.

Lemma concat_added_emissions batches :
  concat (omap added_emission batches) = List.filter is_added (concat batches).
Proof.
  induction batches as [|batch batches IH]; [done|].
  cbn [omap list_omap concat]. rewrite List.filter_app, <- IH.
  unfold added_emission. by destruct (List.filter is_added batch).
Qed.

(** C4. [stateChanges(['added'])] is [stateChanges()] with every batch cut
    down to its records of type [added], batch by batch and in the same
    order; a notification of the unfiltered view yields an emission of the
    filtered one unless the cut leaves nothing, and then it yields none. *)
Theorem stateChanges_added_filtering_law this :
  values (stateChanges this (Some [added]))
    = omap added_emission (values (stateChanges this None))
  ∧ concat (values (stateChanges this (Some [added])))
    = List.filter is_added (concat (values (stateChanges this None)))
  ∧ length (values (stateChanges this None)) = length (values (onSnapshot (query this)))
  ∧ ending (stateChanges this (Some [added])) = ending (stateChanges this None).
Proof.
  assert (values (stateChanges this (Some [added]))
          = omap added_emission (values (stateChanges this None))) as Hlaw.
  { rewrite values_stateChanges_filtering.
    rewrite (stateChanges_unset this None) by (by left).
    rewrite values_docChanges.
    apply list_omap_ext, Forall_Forall2_diag, Forall_forall.
    intros batch _. apply filtered_emission_added. }
  split; [done|]. split; [by rewrite Hlaw, concat_added_emissions|].
  split; [|by rewrite !ending_stateChanges].
  rewrite (stateChanges_unset this None) by (by left).
  by rewrite values_docChanges, length_fmap.
Qed.

Example stateChanges_added_sample :
  documents <$> values (stateChanges (Fixtures.listening Fixtures.scenario) (Some [added]))
  = [[Fixtures.docA; Fixtures.docB; Fixtures.docC]].
Proof. reflexivity. Qed.

(** ** The audit trail *)

Section AuditTrail.
Variable e : Rx.Ending.

Lemma scan_append_ending acc batches :
  ending (Rx.scan_from append_batch acc batches e) = e.
Proof.
  revert acc. induction batches as [|b batches IH]; intros acc; [done|].
  apply IH.
Qed.

Lemma scan_append_length acc batches :
  length (values (Rx.scan_from append_batch acc batches e)) = length batches.
Proof.
  revert acc. induction batches as [|b batches IH]; intros acc; [done|].
  cbn. by rewrite IH.
Qed.

(** The k-th emission is the seed followed by the first k batches. *)
Lemma scan_append_lookup acc batches k :
  k < length batches →
  values (Rx.scan_from append_batch acc batches e) !! k
  = Some (acc ++ concat (take (S k) batches)).
Proof.
  revert acc k. induction batches as [|b batches IH]; intros acc k Hk.
  - cbn in Hk. lia.
  - destruct k as [|k]; cbn.
    + by rewrite take_0, app_nil_r.
    + cbn in Hk. rewrite IH by lia. by rewrite <- app_assoc.
Qed.

End AuditTrail.

Lemma concat_take_prefix {A : Type} (batches : list (list A)) i j :
  i ≤ j → concat (take i batches) `prefix_of` concat (take j batches).
Proof.
  intros Hij. exists (concat (drop i (take j batches))).
  rewrite <- concat_app. f_equal.
  rewrite <- (take_drop i (take j batches)) at 1.
  by rewrite take_take, Nat.min_l.
Qed.

Lemma length_concat {A : Type} (batches : list (list A)) :
  length (concat batches) = sum_list (length <$> batches).
Proof.
  induction batches as [|b batches IH]; [done|].
  cbn. by rewrite length_app, IH.
Qed.

Lemma auditTrail_scan this events :
  auditTrail this events
  = Rx.scan_from append_batch [] (values (stateChanges this events))
      (ending (stateChanges this events)).
Proof. reflexivity. Qed.

(** C3. For every events argument, [auditTrail] emits once per emission of
    [stateChanges]; its k-th emission is the first k filtered batches one
    after the other, so its length is the sum of their sizes; and every
    emission is a prefix of every later one. *)
Theorem auditTrail_cumulative this events :
  let raw := values (stateChanges this events) in
  let log := values (auditTrail this events) in
  length log = length raw
  ∧ (∀ k, k < length raw → log !! k = Some (concat (take (S k) raw)))
  ∧ (∀ k trail, log !! k = Some trail →
       length trail = sum_list (length <$> take (S k) raw))
  ∧ (∀ i j earlier later, i ≤ j →
       log !! i = Some earlier → log !! j = Some later →
       earlier `prefix_of` later).
Proof.
  intros raw log. subst log. rewrite auditTrail_scan. fold raw.
  assert (∀ k trail,
    values (Rx.scan_from append_batch [] raw (ending (stateChanges this events))) !! k
      = Some trail →
    k < length raw ∧ trail = concat (take (S k) raw)) as Hkth.
  { intros k trail Hk. pose proof (lookup_lt_Some _ _ _ Hk) as Hlt.
    rewrite scan_append_length in Hlt. split; [done|].
    rewrite scan_append_lookup in Hk by done. by injection Hk as <-. }
  split; [apply scan_append_length|]. split; [|split].
  - intros k Hk. by rewrite scan_append_lookup.
  - intros k trail [_ ->]%Hkth. apply length_concat.
  - intros i j earlier later Hij [_ ->]%Hkth [_ ->]%Hkth.
    apply concat_take_prefix. lia.
Qed.

Example auditTrail_sample :
  documents <$> values (auditTrail (Fixtures.listening Fixtures.scenario)
                          (Some [added; removed]))
  = [[Fixtures.docA; Fixtures.docB; Fixtures.docC];
     [Fixtures.docA; Fixtures.docB; Fixtures.docC; Fixtures.docB]].
Proof. reflexivity. Qed.

(** ** The default filter *)

Lemma map_id_on {A : Type} (f : A → A) (o : Observable A) :
  (∀ x, f x = x) → Rx.map f o = o.
Proof.
  intros Hid. destruct o as [vs e]. unfold Rx.map. cbn. f_equal.
  rewrite <- (list_fmap_id vs) at 2. by apply list_fmap_ext.
Qed.

Lemma filter_nonempty_id {A : Type} (o : Observable (list A)) :
  Forall (fun batch => batch ≠ []) (values o) →
  Rx.filter (fun batch => (Z.of_nat (length batch) >? 0)%Z) o = o.
Proof.
  intros Hall. destruct o as [vs e]. unfold Rx.filter. cbn in *. f_equal.
  apply filter_all. eapply Forall_impl; [exact Hall|].
  intros batch Hne. rewrite length_positive. by destruct batch.
Qed.

Lemma covers_all_cons events :
  covers_all events → ∃ e es, events = e :: es.
Proof.
  intros Hall. destruct events as [|e es]; [|by eauto].
  by destruct (not_elem_of_nil added).
Qed.

(** With every type requested the filtering branch keeps each batch whole and
    drops the empty ones. *)
Lemma stateChanges_full this full :
  covers_all full →
  stateChanges this (Some full)
  = Rx.filter (fun batch => (Z.of_nat (length batch) >? 0)%Z) (stateChanges this None).
Proof.
  intros Hall. destruct (covers_all_cons _ Hall) as (e & es & ->).
  unfold stateChanges, keepUnstableUntilFirst. f_equal.
  apply map_id_on. intros batch. by apply wanted_covers_all.
Qed.

Lemma sortedChanges_covers_all q events s :
  covers_all events →
  sortedChanges q events s = Rx.scan applyBatch [] (docChanges q s).
Proof.
  intros Hall. unfold sortedChanges. f_equal.
  apply map_id_on. intros batch. by apply wanted_covers_all.
Qed.

Lemma covers_all_default : covers_all [added; removed; modified].
Proof. intros []; set_solver. Qed.

Lemma covers_all_validated events :
  events = None ∨ events = Some [] ∨ (∃ full, events = Some full ∧ covers_all full) →
  covers_all (validateEventsArray events).
Proof.
  intros [-> | [-> | (full & -> & Hall)]]; try apply covers_all_default.
  by destruct (covers_all_cons _ Hall) as (e & es & ->).
Qed.

Lemma snapshotChanges_covers_all this events :
  covers_all (validateEventsArray events) →
  snapshotChanges this events
  = Rx.scan applyBatch [] (docChanges (query this) (outsideAngular (schedulers (afs this)))).
Proof. intros Hall. unfold snapshotChanges. by rewrite sortedChanges_covers_all. Qed.

(** C5, as stated, fails: on a notification that reports no change,
    [stateChanges()] emits the empty batch and [stateChanges] with all three
    types emits nothing. *)
Lemma unset_events_differ_from_full_filter :
  ¬ (∀ this events, events = None ∨ events = Some [] →
       stateChanges this events = stateChanges this (Some [added; modified; removed])
       ∧ auditTrail this events = auditTrail this (Some [added; modified; removed])
       ∧ snapshotChanges this events
         = snapshotChanges this (Some [added; modified; removed])).
Proof.
  intros Hsame.
  destruct (Hsame (Fixtures.listening [Fixtures.quiet]) None) as [Hraw _]; [by left|].
  discriminate Hraw.
Qed.

(** C5, amended. An absent and an empty events argument behave identically in
    all three views.  In [snapshotChanges] both behave as any filter naming
    all three types.  In [stateChanges] such a filter gives the stream of the
    absent argument without its empty batches, so that the two streams, and
    the two audit trails, are equal whenever no notification comes with an
    empty list of changes. *)
Theorem unset_events_default_filter this full :
  covers_all full →
  stateChanges this (Some []) = stateChanges this None
  ∧ auditTrail this (Some []) = auditTrail this None
  ∧ snapshotChanges this (Some []) = snapshotChanges this None
  ∧ snapshotChanges this None = snapshotChanges this (Some full)
  ∧ values (stateChanges this (Some full))
    = List.filter nonempty (values (stateChanges this None))
  ∧ (Forall (fun snap => snapshot_docChanges snap ≠ []) (values (onSnapshot (query this))) →
     stateChanges this (Some full) = stateChanges this None
     ∧ auditTrail this (Some full) = auditTrail this None).
Proof.
  intros Hall.
  assert (Forall (fun snap => snapshot_docChanges snap ≠ [])
            (values (onSnapshot (query this))) →
          stateChanges this (Some full) = stateChanges this None) as Hraw.
  { intros Hbusy. rewrite (stateChanges_full _ _ Hall). apply filter_nonempty_id.
    rewrite (stateChanges_unset this None) by (by left).
    rewrite values_docChanges. apply Forall_fmap.
    eapply Forall_impl; [exact Hbusy|]. intros snap. unfold batch_of. cbn.
    by destruct (snapshot_docChanges snap). }
  split; [done|]. split; [done|]. split; [done|]. split; [|split].
  - rewrite (snapshotChanges_covers_all this None) by apply covers_all_default.
    rewrite (snapshotChanges_covers_all this (Some full)); [done|].
    apply covers_all_validated. right. right. by exists full.
  - rewrite (stateChanges_full _ _ Hall). unfold Rx.filter. cbn [Rx.values].
    apply List.filter_ext. intros batch. apply length_positive.
  - intros Hbusy. split; [by apply Hraw|].
    unfold auditTrail. by rewrite (Hraw Hbusy).
Qed.

Lemma covers_all_any_order : covers_all [added; modified; removed].
Proof. intros []; set_solver. Qed.

Lemma unset_events_default_filter_witness :
  covers_all [added; modified; removed]
  ∧ snapshotChanges (Fixtures.listening Fixtures.scenario) None
    = snapshotChanges (Fixtures.listening Fixtures.scenario) (Some [added; modified; removed])
  ∧ values (stateChanges (Fixtures.listening [Fixtures.first; Fixtures.quiet])
              (Some [added; modified; removed]))
    = List.filter nonempty
        (values (stateChanges (Fixtures.listening [Fixtures.first; Fixtures.quiet]) None)).
Proof.
  split; [exact covers_all_any_order|]. split.
  - apply (unset_events_default_filter (Fixtures.listening Fixtures.scenario) _
             covers_all_any_order).
  - apply (unset_events_default_filter
             (Fixtures.listening [Fixtures.first; Fixtures.quiet]) _
             covers_all_any_order).
Defined.

(** ** The ordered snapshot *)

Lemma length_documents changes : length (documents changes) = length changes.
Proof. apply length_fmap. Qed.

(** Inserting at the gap after [before]. *)
Lemma insertSlot_documents before after x current :
  documents current = before ++ after →
  ∃ next, insertSlot (Z.of_nat (length before)) x current = Ok next
          ∧ documents next = before ++ doc (payload x) :: after.
Proof.
  intros Hdocs. pose proof (length_documents current) as Hlen.
  rewrite Hdocs, length_app in Hlen.
  unfold insertSlot. rewrite Nat2Z.id.
  rewrite andb_true_intro by (split; [apply Z.leb_le | apply Z.leb_le]; lia).
  eexists. split; [done|].
  unfold documents in *. rewrite fmap_app, fmap_cons, fmap_take, fmap_drop, Hdocs.
  by rewrite take_app_length, drop_app_length.
Qed.

(** Deleting the slot after [before]. *)
Lemma removeSlot_documents before d0 after current :
  documents current = before ++ d0 :: after →
  ∃ next, removeSlot (Z.of_nat (length before)) current = Ok next
          ∧ documents next = before ++ after.
Proof.
  intros Hdocs. pose proof (length_documents current) as Hlen.
  rewrite Hdocs, length_app in Hlen. cbn in Hlen.
  unfold removeSlot. rewrite Nat2Z.id.
  rewrite andb_true_intro by (split; [apply Z.leb_le | apply Z.ltb_lt]; lia).
  eexists. split; [done|].
  unfold documents in *. by rewrite list_fmap_delete, Hdocs, delete_middle.
Qed.

(** One change: the reconstructor's step lands on the list the store
    declares. *)
Lemma applyChange_follows_store result change result' current :
  store_change result change result' →
  documents current = result →
  ∃ next, applyChange current (as_action change) = Ok next
          ∧ documents next = result'.
Proof.
  intros Hstore Hdocs. unfold applyChange.
  destruct Hstore as [before after d | before after d0 d _
                     | before after before' after' d0 d _ Hrest];
    cbn [as_action type payload change_type oldIndex newIndex].
  - exact (insertSlot_documents before after (as_action _) current Hdocs).
  - exact (removeSlot_documents before d0 after current Hdocs).
  - destruct (removeSlot_documents before d0 after current Hdocs) as (rest & -> & Hdocs').
    cbn. rewrite Hrest in Hdocs'.
    exact (insertSlot_documents before' after' (as_action _) rest Hdocs').
Qed.

Lemma applyBatch_follows_store result changes result' current :
  store_batch result changes result' →
  documents current = result →
  ∃ next, applyBatch current (as_action <$> changes) = Ok next
          ∧ documents next = result'.
Proof.
  intros Hstore. revert current.
  induction Hstore as [result | result change result' changes result'' Hchange _ IH];
    intros current Hdocs.
  - by exists current.
  - destruct (applyChange_follows_store _ _ _ _ Hchange Hdocs) as (next & Hnext & Hdocs').
    rewrite fmap_cons. cbn [applyBatch]. rewrite Hnext. cbn. by apply IH.
Qed.

(** A run: after every notification the reconstructed sequence is the
    notification's own list of matches. *)
Lemma scan_follows_store result snaps e current :
  store_run result snaps →
  documents current = result →
  documents <$> values (Rx.scan_from applyBatch current (batch_of <$> snaps) e)
    = docs <$> snaps
  ∧ ending (Rx.scan_from applyBatch current (batch_of <$> snaps) e) = e.
Proof.
  intros Hrun. revert current.
  induction Hrun as [result | result snap rest Hbatch _ IH]; intros current Hdocs.
  - done.
  - destruct (applyBatch_follows_store _ _ _ _ Hbatch Hdocs) as (next & Hnext & Hdocs').
    rewrite fmap_cons. cbn [Rx.scan_from]. unfold batch_of at 1 4.
    fold as_action. rewrite Hnext. cbn [Rx.values Rx.ending].
    destruct (IH next Hdocs') as [Hvalues Hending].
    by rewrite !fmap_cons, Hvalues, Hdocs'.
Qed.

(** A change whose index does not fit ends the subscription. *)
Example snapshotChanges_malformed :
  snapshotChanges
    (Fixtures.listening
       [Fixtures.first;
        {| docs := [Fixtures.docA; Fixtures.docB];
           snapshot_docChanges := [Fixtures.Removed Fixtures.docC 5] |};
        Fixtures.third]) None
  = Rx.Obs [batch_of Fixtures.first] (Rx.Failed MalformedNotificationError).
Proof. reflexivity. Qed.

Lemma scenario_store_run : store_run [] Fixtures.scenario.
Proof.
  repeat apply store_run_cons; try apply store_run_nil.
  - eapply store_batch_cons; [exact (store_added [] [] Fixtures.docA)|].
    eapply store_batch_cons; [exact (store_added [Fixtures.docA] [] Fixtures.docB)|].
    eapply store_batch_cons;
      [exact (store_added [Fixtures.docA; Fixtures.docB] [] Fixtures.docC)|].
    apply store_batch_nil.
  - eapply store_batch_cons;
      [exact (store_removed [Fixtures.docA] [Fixtures.docC] Fixtures.docB Fixtures.docB
                eq_refl)|].
    apply store_batch_nil.
  - eapply store_batch_cons;
      [exact (store_modified [] [Fixtures.docC] [Fixtures.docC] []
                Fixtures.docA Fixtures.docA eq_refl eq_refl)|].
    apply store_batch_nil.
Qed.

Example snapshotChanges_scenario :
  documents <$> values (snapshotChanges (Fixtures.listening Fixtures.scenario) None)
  = [[Fixtures.docA; Fixtures.docB; Fixtures.docC];
     [Fixtures.docA; Fixtures.docC];
     [Fixtures.docC; Fixtures.docA]].
Proof. reflexivity. Qed.

Example snapshotChanges_scenario_added_only :
  documents <$> values (snapshotChanges (Fixtures.listening Fixtures.scenario)
                          (Some [added]))
  = [[Fixtures.docA; Fixtures.docB; Fixtures.docC];
     [Fixtures.docA; Fixtures.docB; Fixtures.docC];
     [Fixtures.docA; Fixtures.docB; Fixtures.docC]].
Proof. reflexivity. Qed.

(** C1, as stated, fails: a subscription that asked for additions only
    keeps B after the store has removed it, and never moves A. *)
Lemma snapshotChanges_filtered_misses_store :
  ¬ (∀ this events,
       store_run [] (values (onSnapshot (query this))) →
       documents <$> values (snapshotChanges this events)
       = docs <$> values (onSnapshot (query this))).
Proof.
  intros Hmatch.
  specialize (Hmatch (Fixtures.listening Fixtures.scenario) (Some [added])
                scenario_store_run).
  apply (f_equal (fmap length)) in Hmatch. discriminate Hmatch.
Qed.

(** C1, amended. For an events argument that is absent, empty, or names all
    three change types, and every run of notifications of the store, the
    ordered snapshot emitted after each notification lists exactly the
    documents of that notification's result set, in its order; the run
    (add A, B, C at 0, 1, 2), (remove B at 1), (move A from 0 to 1) emits
    [A,B,C], then [A,C], then [C,A]. *)
Theorem snapshotChanges_matches_store :
  (∀ this events,
     covers_all (validateEventsArray events) →
     store_run [] (values (onSnapshot (query this))) →
     documents <$> values (snapshotChanges this events)
       = docs <$> values (onSnapshot (query this))
     ∧ ending (snapshotChanges this events) = ending (onSnapshot (query this)))
  ∧ documents <$> values (snapshotChanges (Fixtures.listening Fixtures.scenario) None)
    = [[Fixtures.docA; Fixtures.docB; Fixtures.docC];
       [Fixtures.docA; Fixtures.docC];
       [Fixtures.docC; Fixtures.docA]].
Proof.
  split; [|reflexivity].
  intros this events Hall Hrun. rewrite (snapshotChanges_covers_all _ _ Hall).
  unfold Rx.scan. rewrite values_docChanges.
  by apply (scan_follows_store [] _ _ [] Hrun).
Qed.

Lemma snapshotChanges_matches_store_witness :
  covers_all (validateEventsArray Fixtures.empty_events)
  ∧ store_run [] (values (onSnapshot (query (Fixtures.listening Fixtures.scenario))))
  ∧ documents <$> values (snapshotChanges (Fixtures.listening Fixtures.scenario)
                            Fixtures.empty_events)
    = docs <$> Fixtures.scenario.
Proof.
  split; [exact covers_all_default|]. split; [exact scenario_store_run|].
  apply (proj1 snapshotChanges_matches_store
           (Fixtures.listening Fixtures.scenario) Fixtures.empty_events
           covers_all_default scenario_store_run).
Defined.

(** ** Independent subscriptions *)

(** The values [scan] emits do not depend on how its source ends. *)
Lemma values_scan_from_ending {A B : Type} (f : B → A → result B) acc inputs e e' :
  values (Rx.scan_from f acc inputs e) = values (Rx.scan_from f acc inputs e').
Proof.
  revert acc. induction inputs as [|x inputs IH]; intros acc; [done|].
  cbn. destruct (f acc x) as [acc'|err]; cbn; [|done]. by rewrite (IH acc').
Qed.

(** [scan] is causal: its first [n] emissions are those of the first [n]
    inputs. *)
Lemma scan_from_take {A B : Type} (f : B → A → result B) acc inputs e n :
  take n (values (Rx.scan_from f acc inputs e))
  = values (Rx.scan_from f acc (take n inputs) e).
Proof.
  revert acc n. induction inputs as [|x inputs IH]; intros acc n.
  - rewrite take_nil. cbn. by rewrite take_nil.
  - destruct n as [|n]; [done|]. cbn.
    destruct (f acc x) as [acc'|err]; cbn; [|done]. by rewrite IH.
Qed.

Lemma values_snapshotChanges this events :
  values (snapshotChanges this events)
  = reconstruct events (values (onSnapshot (query this))).
Proof.
  unfold snapshotChanges, sortedChanges, keepUnstableUntilFirst, Rx.scan, reconstruct.
  rewrite values_map, values_docChanges, ending_map.
  apply values_scan_from_ending.
Qed.

Lemma reconstruct_take events snaps n :
  take n (reconstruct events snaps) = reconstruct events (take n snaps).
Proof. unfold reconstruct. by rewrite scan_from_take, !fmap_take. Qed.

Lemma all_in_step_boot : all_in_step boot.
Proof. split; [done|]. intros i s Hs. by destruct i. Qed.

(** A new subscription gets an array of its own and leaves the others'. *)
Lemma all_in_step_subscribe this events w :
  all_in_step w → all_in_step (subscribe this events w).
Proof.
  intros [Hlen Hall]. split; cbn.
  { rewrite !length_app. cbn. lia. }
  intros i s Hs. apply lookup_app_Some in Hs as [Hs | [Hge Hs]].
  - destruct (Hall i s Hs) as [Hloc Hstate]. split; [done|].
    destruct (failure s); [done|]. destruct Hstate as (current & Hcurrent & Hrest).
    exists current. split; [|done]. by apply lookup_app_l_Some.
  - apply list_lookup_singleton_Some in Hs as [Hi <-]. cbn.
    assert (i = length (heap w)) as -> by lia.
    split; [done|]. exists []. split; [|done].
    rewrite lookup_app_r by lia. by rewrite Nat.sub_diag.
Qed.

(** A notification changes the array of the subscription it is for, and no
    other. *)
Lemma all_in_step_deliver i w : all_in_step w → all_in_step (deliver i w).
Proof.
  intros [Hlen Hall]. unfold deliver.
  destruct (subscriptions w !! i) as [s|] eqn:Hs; [|done].
  destruct (Hall i s Hs) as [Hloc Hstate].
  destruct (failure s) eqn:Hfailure; [done|].
  destruct (incoming s) as [|snap rest] eqn:Hincoming; [done|].
  destruct Hstate as (current & Hcurrent & Hrest).
  rewrite Hloc, Hcurrent.
  pose proof (lookup_lt_Some _ _ _ Hs) as Hi.
  pose proof (lookup_lt_Some _ _ _ Hcurrent) as Hi'.
  unfold wanted_batches in Hrest. rewrite !fmap_cons in Hrest.
  cbn [Rx.scan_from] in Hrest.
  destruct (applyBatch current _) as [next|e] eqn:Hnext; cbn in Hrest.
  - split; cbn [heap subscriptions]; [by rewrite !length_insert|].
    intros k s' Hs'. destruct (decide (k = i)) as [->|Hne].
    + rewrite list_lookup_insert_eq in Hs' by done. injection Hs' as <-.
      split; [done|]. cbn [failure advanced]. exists next.
      split; [by apply list_lookup_insert_eq|].
      unfold wanted_batches, advanced. cbn [source request emitted incoming].
      by rewrite Hrest, <- app_assoc.
    + rewrite list_lookup_insert_ne in Hs' by done.
      destruct (Hall k s' Hs') as [Hloc' Hstate']. split; [done|].
      destruct (failure s'); [done|]. destruct Hstate' as (c & Hc & Hrest').
      exists c. split; [|done]. by rewrite list_lookup_insert_ne.
  - split; cbn [heap subscriptions]; [by rewrite length_insert|].
    intros k s' Hs'. destruct (decide (k = i)) as [->|Hne].
    + rewrite list_lookup_insert_eq in Hs' by done. injection Hs' as <-.
      split; [done|]. cbn. split; [done|]. by rewrite Hrest, app_nil_r.
    + rewrite list_lookup_insert_ne in Hs' by done. by apply Hall.
Qed.

Lemma all_in_step_run steps w : all_in_step w → all_in_step (run steps w).
Proof.
  revert w. induction steps as [|st steps IH]; intros w Hw; [done|].
  apply IH. destruct st as [this events|i]; cbn.
  - by apply all_in_step_subscribe.
  - by apply all_in_step_deliver.
Qed.

(** What a subscription in step has emitted is a first part of its stream,
    and all of it once its listener has nothing left to deliver. *)
Lemma in_step_emitted h i s :
  in_step h i s →
  emitted s `prefix_of` values (snapshotChanges (source s) (request s))
  ∧ (incoming s = [] → emitted s = values (snapshotChanges (source s) (request s))).
Proof.
  intros [_ Hstate]. rewrite values_snapshotChanges.
  destruct (failure s).
  - destruct Hstate as [_ ->]. done.
  - destruct Hstate as (current & _ & ->). split; [by eexists|].
    intros ->. cbn. by rewrite app_nil_r.
Qed.

Example interleaved_emissions :
  (fun s => fmap documents (emitted s)) <$> subscriptions (run RunFixtures.interleaved boot)
  = [ [[Fixtures.docA; Fixtures.docB; Fixtures.docC];
       [Fixtures.docA; Fixtures.docC];
       [Fixtures.docC; Fixtures.docA]];
      [[Fixtures.docA; Fixtures.docB; Fixtures.docC];
       [Fixtures.docA; Fixtures.docC];
       [Fixtures.docC; Fixtures.docA]] ].
Proof. reflexivity. Qed.

(** Were the array shared, the second subscription would start from what the
    first has left in it, and the two would not agree. *)
Example shared_array_disagrees :
  (fun s => fmap documents (emitted s))
    <$> subscriptions (run [Deliver 0; Deliver 1]
                         (sharing (Fixtures.listening [Fixtures.first]) None))
  = [ [[Fixtures.docA; Fixtures.docB; Fixtures.docC]];
      [[Fixtures.docA; Fixtures.docB; Fixtures.docC;
        Fixtures.docA; Fixtures.docB; Fixtures.docC]] ].
Proof. reflexivity. Qed.

(** C7. In a program where consumers subscribe to [snapshotChanges] and
    listeners notify in any order, two subscriptions with the same events
    argument whose listeners deliver the same notifications emit the same
    ordered snapshots step by step, each a first part of the one stream of
    [snapshotChanges]; once both listeners have delivered everything, the two
    have emitted the same. *)
Theorem snapshotChanges_subscriptions_agree steps i j s1 s2 :
  subscriptions (run steps boot) !! i = Some s1 →
  subscriptions (run steps boot) !! j = Some s2 →
  request s1 = request s2 →
  values (onSnapshot (query (source s1))) = values (onSnapshot (query (source s2))) →
  (∀ k x y, emitted s1 !! k = Some x → emitted s2 !! k = Some y → x = y)
  ∧ (incoming s1 = [] → incoming s2 = [] → emitted s1 = emitted s2)
  ∧ emitted s1 `prefix_of` values (snapshotChanges (source s1) (request s1))
  ∧ emitted s2 `prefix_of` values (snapshotChanges (source s1) (request s1)).
Proof.
  intros Hs1 Hs2 Hrequest Hlistener.
  destruct (all_in_step_run steps boot all_in_step_boot) as [_ Hall].
  destruct (in_step_emitted _ _ _ (Hall i s1 Hs1)) as [Hpre1 Hall1].
  destruct (in_step_emitted _ _ _ (Hall j s2 Hs2)) as [Hpre2 Hall2].
  assert (values (snapshotChanges (source s2) (request s2))
          = values (snapshotChanges (source s1) (request s1))) as Hsame.
  { by rewrite !values_snapshotChanges, Hrequest, Hlistener. }
  rewrite Hsame in Hpre2, Hall2.
  split; [|split; [|done]].
  - intros k x y Hx Hy.
    pose proof (prefix_lookup_Some _ _ _ _ Hx Hpre1) as Hx'.
    pose proof (prefix_lookup_Some _ _ _ _ Hy Hpre2) as Hy'.
    congruence.
  - intros Hdone1 Hdone2. by rewrite Hall1, Hall2.
Qed.

Lemma snapshotChanges_subscriptions_agree_witness :
  ∃ s1 s2,
    subscriptions (run RunFixtures.interleaved boot) !! 0 = Some s1
    ∧ subscriptions (run RunFixtures.interleaved boot) !! 1 = Some s2
    ∧ request s1 = request s2
    ∧ values (onSnapshot (query (source s1))) = values (onSnapshot (query (source s2)))
    ∧ incoming s1 = [] ∧ incoming s2 = []
    ∧ emitted s1 = emitted s2.
Proof.
  eexists _, _.
  split; [reflexivity|]. split; [reflexivity|]. split; [reflexivity|].
  split; [reflexivity|]. split; [reflexivity|]. split; [reflexivity|].
  apply (snapshotChanges_subscriptions_agree RunFixtures.interleaved 0 1 _ _
           eq_refl eq_refl eq_refl eq_refl); reflexivity.
Defined.

(** ** The value view *)

Lemma spread_id key a :
  spread (spread ∅ (doc_data a)) {[ key := JsString (doc_id a) ]} = with_id key a.
Proof.
  unfold spread, with_id.
  by rewrite (right_id_L ∅ (∪)), insert_union_singleton_l.
Qed.

Lemma values_valueChanges_plain this options :
  options = None ∨ options = Some {| idField := None |}
  ∨ options = Some {| idField := Some ""%string |} →
  values (valueChanges this options)
  = (fun snap => doc_data <$> docs snap) <$> values (onSnapshot (query this)).
Proof.
  intros Hplain. unfold valueChanges, keepUnstableUntilFirst, fromCollectionRef.
  rewrite !values_map, <- list_fmap_compose.
  by destruct Hplain as [-> | [-> | ->]].
Qed.

Lemma values_valueChanges_idField this key :
  key ≠ ""%string →
  values (valueChanges this (Some {| idField := Some key |}))
  = (fun snap => with_id key <$> docs snap) <$> values (onSnapshot (query this)).
Proof.
  intros Hkey. unfold valueChanges, keepUnstableUntilFirst, fromCollectionRef.
  rewrite !values_map, <- list_fmap_compose.
  destruct key as [|c key]; [done|]. cbn.
  apply list_fmap_ext. intros _ snap _. cbn.
  apply list_fmap_ext. intros _ a _. apply spread_id.
Qed.

Example valueChanges_sample :
  values (valueChanges (Fixtures.listening [ValueFixtures.results])
            (Some {| idField := Some "id"%string |}))
  = [[ {[ "name"%string := JsString "x"; "id"%string := JsString "doc1" ]} ]].
Proof. vm_compute. reflexivity. Qed.

(** C6, as stated, fails: with the option [{idField: ''}] the guard
    [if (options.idField)] is false and the plain data is emitted, with no id
    under the named field. *)
Lemma valueChanges_empty_idField_not_merged :
  ¬ (∀ this key,
       values (valueChanges this (Some {| idField := Some key |}))
       = (fun snap => with_id key <$> docs snap) <$> values (onSnapshot (query this))).
Proof.
  intros Hmerged.
  specialize (Hmerged (Fixtures.listening [ValueFixtures.results]) ""%string).
  apply (f_equal (field_of_first ""%string)) in Hmerged.
  vm_compute in Hmerged. discriminate Hmerged.
Qed.

(** C6, amended. For every notification, [valueChanges] with a non-empty
    [idField] emits the data objects of the notification's match list, each
    with the document id under that field; with no options, no [idField] or an
    empty [idField] it emits the plain data objects; and
    [valueChanges({idField: 'id'})] on the list [[{name:'x'}]] with document id
    ["doc1"] emits [[{name:'x', id:'doc1'}]]. *)
Theorem valueChanges_projects_documents :
  (∀ this key, key ≠ ""%string →
     values (valueChanges this (Some {| idField := Some key |}))
     = (fun snap => with_id key <$> docs snap) <$> values (onSnapshot (query this)))
  ∧ (∀ this options,
       options = None ∨ options = Some {| idField := None |}
       ∨ options = Some {| idField := Some ""%string |} →
       values (valueChanges this options)
       = (fun snap => doc_data <$> docs snap) <$> values (onSnapshot (query this)))
  ∧ values (valueChanges (Fixtures.listening [ValueFixtures.results])
              (Some {| idField := Some "id"%string |}))
    = [[ {[ "name"%string := JsString "x"; "id"%string := JsString "doc1" ]} ]].
Proof.
  split; [exact values_valueChanges_idField|].
  split; [exact values_valueChanges_plain|].
  vm_compute. reflexivity.
Qed.

Lemma valueChanges_projects_documents_witness :
  "id"%string ≠ ""%string
  ∧ values (valueChanges (Fixtures.listening [ValueFixtures.results; ValueFixtures.results2])
              (Some {| idField := Some "id"%string |}))
    = (fun snap => with_id "id" <$> docs snap)
        <$> [ValueFixtures.results; ValueFixtures.results2].
Proof.
  assert ("id"%string ≠ ""%string) as Hkey by discriminate.
  split; [exact Hkey|].
  apply (proj1 valueChanges_projects_documents
           (Fixtures.listening [ValueFixtures.results; ValueFixtures.results2])
           "id"%string Hkey).
Defined.

(** C10, as stated, fails: with the option [{idField: ''}] the guard
    [if (options.idField)] is false, the data is emitted as it is, and a field
    with the empty name keeps the data's own value. *)
Lemma valueChanges_empty_idField_keeps_own_value :
  ¬ (∀ this key i j snap a own emitted object,
       values (onSnapshot (query this)) !! i = Some snap →
       docs snap !! j = Some a →
       doc_data a !! key = Some own →
       values (valueChanges this (Some {| idField := Some key |})) !! i = Some emitted →
       emitted !! j = Some object →
       object !! key = Some (JsString (doc_id a))).
Proof.
  intros Hid.
  specialize (Hid (Fixtures.listening [ValueFixtures.results3]) ""%string 0 0
                ValueFixtures.results3 ValueFixtures.doc3 (JsNumber 7)
                [doc_data ValueFixtures.doc3] (doc_data ValueFixtures.doc3)
                eq_refl eq_refl eq_refl eq_refl eq_refl).
  vm_compute in Hid. discriminate Hid.
Qed.

(** C10, amended. In [valueChanges({idField})] with a non-empty [idField],
    for a document whose data has a field named as [idField], the emitted
    object holds the document id at that field, not the data's own value. *)
Theorem valueChanges_id_overwrites_field this key i j snap a own emitted object :
  key ≠ ""%string →
  values (onSnapshot (query this)) !! i = Some snap →
  docs snap !! j = Some a →
  doc_data a !! key = Some own →
  values (valueChanges this (Some {| idField := Some key |})) !! i = Some emitted →
  emitted !! j = Some object →
  object !! key = Some (JsString (doc_id a)).
Proof.
  intros Hkey Hsnap Ha Hown Hemitted Hobject.
  rewrite (values_valueChanges_idField _ _ Hkey), list_lookup_fmap, Hsnap in Hemitted.
  injection Hemitted as <-.
  rewrite list_lookup_fmap, Ha in Hobject. injection Hobject as <-.
  apply lookup_insert_eq.
Qed.

Lemma valueChanges_id_overwrites_field_witness :
  "id"%string ≠ ""%string
  ∧ doc_data ValueFixtures.doc2 !! "id"%string = Some (JsNumber 7)
  ∧ with_id "id" ValueFixtures.doc2 !! "id"%string = Some (JsString "doc2").
Proof.
  assert ("id"%string ≠ ""%string) as Hkey by discriminate.
  split; [exact Hkey|]. split; [reflexivity|].
  apply (valueChanges_id_overwrites_field
           (Fixtures.listening [ValueFixtures.results2]) "id"%string 0 0
           ValueFixtures.results2 ValueFixtures.doc2 (JsNumber 7)
           [with_id "id" ValueFixtures.doc2] (with_id "id" ValueFixtures.doc2) Hkey);
    reflexivity.
Defined.

(** ** The one-shot read *)

Example get_resolved this options snap :
  query_get (query this) options = Rx.Resolved snap →
  get this options = Rx.Obs [snap] Rx.Completed.
Proof. intros Hfetch. unfold get, Rx.observeOn. by rewrite Hfetch. Qed.

(** C8. When the fetch fails, [get] delivers the store's error and no value:
    the stream ends with the very error the promise was rejected with, and
    nothing was emitted before it. *)
Theorem get_rejects_without_value this options e :
  query_get (query this) options = Rx.Rejected e →
  values (get this options) = [] ∧ ending (get this options) = Rx.Failed e.
Proof. intros Hfetch. unfold get, Rx.observeOn. by rewrite Hfetch. Qed.

Lemma get_rejects_without_value_witness :
  query_get (query (Fixtures.unreachable (StoreTransportError "unavailable"))) None
  = Rx.Rejected (StoreTransportError "unavailable")
  ∧ values (get (Fixtures.unreachable (StoreTransportError "unavailable")) None) = []
  ∧ ending (get (Fixtures.unreachable (StoreTransportError "unavailable")) None)
    = Rx.Failed (StoreTransportError "unavailable").
Proof.
  split; [reflexivity|].
  apply (get_rejects_without_value
           (Fixtures.unreachable (StoreTransportError "unavailable")) None
           (StoreTransportError "unavailable")).
  reflexivity.
Defined.

(** * Further properties of the code *)

(** ** [validateEventsArray] *)

Lemma validateEventsArray_idempotent events :
  validateEventsArray (Some (validateEventsArray events)) = validateEventsArray events.
Proof. by destruct events as [[|e es]|]. Qed.

(** X1. [validateEventsArray] never returns an empty array, keeps every type
    of the array it was given, and applying it to its own result changes
    nothing. *)
Theorem validateEventsArray_normalises events :
  validateEventsArray events ≠ []
  ∧ (∀ given t, events = Some given → t ∈ given → t ∈ validateEventsArray events)
  ∧ validateEventsArray (Some (validateEventsArray events)) = validateEventsArray events.
Proof.
  split; [by destruct events as [[|e es]|]|].
  split; [|apply validateEventsArray_idempotent].
  intros given t -> Ht. destruct given as [|e es]; [|done].
  by destruct (not_elem_of_nil t).
Qed.

(** X2. [snapshotChanges] sees its events argument only through
    [validateEventsArray]: passing the validated array gives the same stream. *)
Theorem snapshotChanges_validated this events :
  snapshotChanges this (Some (validateEventsArray events)) = snapshotChanges this events.
Proof. unfold snapshotChanges. by rewrite validateEventsArray_idempotent. Qed.

(** ** [stateChanges] *)

Lemma map_ext_on {A B : Type} (f g : A → B) (o : Observable A) :
  (∀ x, f x = g x) → Rx.map f o = Rx.map g o.
Proof. intros Hfg. unfold Rx.map. f_equal. by apply list_fmap_ext. Qed.

Lemma wanted_requested events change : wanted events change = requested events change.
Proof. apply wanted_elem_of. Qed.

Lemma wanted_same_members ev1 ev2 change :
  (∀ t, t ∈ ev1 ↔ t ∈ ev2) → wanted ev1 change = wanted ev2 change.
Proof. intros Hsame. rewrite !wanted_elem_of. by apply bool_decide_ext. Qed.

(** X3. A non-empty events array counts as a set: two arrays naming the same
    change types, in any order and with any repetition, give the same raw
    deltas. *)
Theorem stateChanges_events_as_set this ev1 ev2 :
  ev1 ≠ [] →
  (∀ t, t ∈ ev1 ↔ t ∈ ev2) →
  stateChanges this (Some ev1) = stateChanges this (Some ev2).
Proof.
  intros Hne Hsame. destruct ev1 as [|e1 es1]; [done|].
  destruct ev2 as [|e2 es2].
  { destruct (not_elem_of_nil e1). apply Hsame, list_elem_of_here. }
  unfold stateChanges. do 2 f_equal. apply map_ext_on. intros actions.
  apply List.filter_ext. intros change.
  exact (wanted_same_members _ _ change Hsame).
Qed.

Lemma stateChanges_events_as_set_witness :
  [removed; added; removed] ≠ []
  ∧ stateChanges (Fixtures.listening Fixtures.scenario) (Some [removed; added; removed])
    = stateChanges (Fixtures.listening Fixtures.scenario) (Some [added; removed]).
Proof.
  split; [discriminate|].
  apply (stateChanges_events_as_set (Fixtures.listening Fixtures.scenario)
           [removed; added; removed] [added; removed]); [discriminate|].
  intros t. rewrite !elem_of_cons. intuition.
Defined.

Lemma concat_filtered_emissions events batches :
  concat (omap (filtered_emission events) batches)
  = List.filter (wanted events) (concat batches).
Proof.
  induction batches as [|batch batches IH]; [done|].
  cbn [omap list_omap concat]. rewrite List.filter_app, <- IH.
  unfold filtered_emission. by destruct (List.filter (wanted events) batch).
Qed.

Lemma filtered_emission_requested events batch kept :
  filtered_emission events batch = Some kept →
  Forall (fun change => type change ∈ events) kept.
Proof.
  unfold filtered_emission. destruct (nonempty _); [|done]. intros [= <-].
  apply Forall_forall. intros change Hin%list_elem_of_In%List.filter_In.
  destruct Hin as [_ Hwanted]. rewrite wanted_elem_of in Hwanted.
  by apply bool_decide_eq_true_1 in Hwanted.
Qed.

Lemma stateChanges_requested_only this e es :
  Forall (Forall (fun change => type change ∈ e :: es))
    (values (stateChanges this (Some (e :: es)))).
Proof.
  rewrite values_stateChanges_filtering. apply Forall_forall.
  intros kept [batch [_ Hkept]]%list_elem_of_omap.
  by eapply filtered_emission_requested.
Qed.

(** X4. With a non-empty events array, the records [stateChanges] emits are,
    in the store's order, exactly the records of the notifications whose type
    is in the array: none of another type, none lost, none reordered. *)
Theorem stateChanges_emits_requested this e es :
  concat (values (stateChanges this (Some (e :: es))))
  = List.filter (requested (e :: es))
      (concat (batch_of <$> values (onSnapshot (query this))))
  ∧ Forall (Forall (fun change => type change ∈ e :: es))
      (values (stateChanges this (Some (e :: es)))).
Proof.
  split; [|apply stateChanges_requested_only].
  rewrite values_stateChanges_filtering, concat_filtered_emissions.
  apply List.filter_ext, wanted_requested.
Qed.

Lemma filter_wanted_narrower ev1 ev2 batch :
  (∀ t, t ∈ ev2 → t ∈ ev1) →
  List.filter (wanted ev2) (List.filter (wanted ev1) batch)
  = List.filter (wanted ev2) batch.
Proof.
  intros Hsub. induction batch as [|change batch IH]; [done|].
  cbn [List.filter].
  destruct (wanted ev1 change) eqn:H1; cbn [List.filter]; [by rewrite IH|].
  destruct (wanted ev2 change) eqn:H2; [|done].
  rewrite wanted_elem_of in H1, H2.
  apply bool_decide_eq_true_1 in H2. apply bool_decide_eq_false_1 in H1.
  destruct H1. by apply Hsub.
Qed.

Lemma filtered_emission_narrower ev1 ev2 (batches : list (list DocumentChangeAction)) :
  (∀ t, t ∈ ev2 → t ∈ ev1) →
  omap (filtered_emission ev2) (omap (filtered_emission ev1) batches)
  = omap (filtered_emission ev2) batches.
Proof.
  intros Hsub. induction batches as [|batch batches IH]; [done|].
  cbn [omap list_omap].
  assert (filtered_emission ev2 (List.filter (wanted ev1) batch)
          = filtered_emission ev2 batch) as Hsame.
  { unfold filtered_emission. by rewrite (filter_wanted_narrower _ _ _ Hsub). }
  unfold filtered_emission at 2.
  destruct (List.filter (wanted ev1) batch) as [|change kept] eqn:Hkept.
  - cbn [nonempty]. rewrite <- Hsame, IH. done.
  - cbn [nonempty omap list_omap]. by rewrite Hsame, IH.
Qed.

(** X5. Narrowing the filter composes: for a non-empty events array [ev2]
    whose types are all in [ev1], [stateChanges(ev2)] is [stateChanges(ev1)]
    filtered once more by [ev2], batch by batch, with the batches it empties
    left out. *)
Theorem stateChanges_narrowing this ev1 ev2 :
  ev2 ≠ [] →
  (∀ t, t ∈ ev2 → t ∈ ev1) →
  values (stateChanges this (Some ev2))
  = omap (filtered_emission ev2) (values (stateChanges this (Some ev1))).
Proof.
  intros Hne Hsub. destruct ev2 as [|e2 es2]; [done|].
  destruct ev1 as [|e1 es1].
  { destruct (not_elem_of_nil e2). apply Hsub, list_elem_of_here. }
  rewrite !values_stateChanges_filtering. symmetry.
  by apply filtered_emission_narrower.
Qed.

Lemma stateChanges_narrowing_witness :
  [removed] ≠ []
  ∧ values (stateChanges (Fixtures.listening Fixtures.scenario) (Some [removed]))
    = omap (filtered_emission [removed])
        (values (stateChanges (Fixtures.listening Fixtures.scenario)
                   (Some [added; removed]))).
Proof.
  split; [discriminate|].
  apply (stateChanges_narrowing (Fixtures.listening Fixtures.scenario)
           [added; removed] [removed]); [discriminate|].
  intros t. rewrite !elem_of_cons. intuition.
Defined.

Lemma length_omap_le {A B : Type} (f : A → option B) (l : list A) :
  length (omap f l) ≤ length l.
Proof.
  induction l as [|x l IH]; [done|]. cbn. destruct (f x); cbn; lia.
Qed.

Lemma values_stateChanges_app this events before after :
  values (stateChanges (delivering this (before ++ after)) events)
  = values (stateChanges (delivering this before) events)
    ++ values (stateChanges (delivering this after) events).
Proof.
  destruct events as [[|e es]|].
  - rewrite !(stateChanges_unset _ (Some [])) by (by right).
    rewrite !values_docChanges. cbn. apply fmap_app.
  - rewrite !values_stateChanges_filtering. cbn.
    by rewrite fmap_app, omap_app.
  - rewrite !(stateChanges_unset _ None) by (by left).
    rewrite !values_docChanges. cbn. apply fmap_app.
Qed.

(** X6. [stateChanges] keeps no state between notifications: what it emits
    for a run of notifications followed by another run is what it emits for
    the first followed by what it emits for the second, for every events
    argument; and it emits at most once per notification. *)
Theorem stateChanges_stateless this events before after :
  values (stateChanges (delivering this (before ++ after)) events)
  = values (stateChanges (delivering this before) events)
    ++ values (stateChanges (delivering this after) events)
  ∧ length (values (stateChanges this events))
    ≤ length (values (onSnapshot (query this))).
Proof.
  split; [apply values_stateChanges_app|].
  destruct events as [[|e es]|].
  - rewrite (stateChanges_unset _ (Some [])) by (by right).
    by rewrite values_docChanges, length_fmap.
  - rewrite values_stateChanges_filtering.
    etrans; [apply length_omap_le|]. by rewrite length_fmap.
  - rewrite (stateChanges_unset _ None) by (by left).
    by rewrite values_docChanges, length_fmap.
Qed.

(** ** How the streams end *)

Lemma ending_auditTrail this events :
  ending (auditTrail this events) = ending (onSnapshot (query this)).
Proof.
  unfold auditTrail, Rx.scan. by rewrite scan_append_ending, ending_stateChanges.
Qed.

Lemma ending_valueChanges this options :
  ending (valueChanges this options) = ending (onSnapshot (query this)).
Proof. reflexivity. Qed.

(** X7. [stateChanges], [auditTrail] and [valueChanges] end the way the
    store's listener ends, whatever their arguments: an error of the listener
    comes out as that same error, and none of the three fails or completes on
    its own. *)
Theorem listener_ending_passes_through this events options :
  ending (stateChanges this events) = ending (onSnapshot (query this))
  ∧ ending (auditTrail this events) = ending (onSnapshot (query this))
  ∧ ending (valueChanges this options) = ending (onSnapshot (query this)).
Proof.
  split; [apply ending_stateChanges|].
  split; [apply ending_auditTrail | apply ending_valueChanges].
Qed.

Example listener_error_sample :
  let failing :=
    {| query := {| onSnapshot :=
                     Rx.Obs [Fixtures.first] (Rx.Failed (StoreTransportError "denied"));
                   query_get := fun _ => Rx.Pending |};
       afs := Fixtures.services |} in
  auditTrail failing (Some [added])
  = Rx.Obs [batch_of Fixtures.first] (Rx.Failed (StoreTransportError "denied")).
Proof. reflexivity. Qed.

Lemma concat_stateChanges_filtering this e es :
  concat (values (stateChanges this (Some (e :: es))))
  = List.filter (requested (e :: es)) (concat (values (stateChanges this None))).
Proof.
  rewrite values_stateChanges_filtering, concat_filtered_emissions.
  rewrite (stateChanges_unset this None) by (by left). rewrite values_docChanges.
  apply List.filter_ext, wanted_requested.
Qed.

(** ** [auditTrail] *)

Lemma concat_snoc {A : Type} (batches : list (list A)) batch :
  concat (batches ++ [batch]) = concat batches ++ batch.
Proof. rewrite concat_app. cbn. by rewrite app_nil_r. Qed.

Lemma auditTrail_lookup this events k trail :
  values (auditTrail this events) !! k = Some trail →
  k < length (values (stateChanges this events))
  ∧ trail = concat (take (S k) (values (stateChanges this events))).
Proof.
  rewrite auditTrail_scan. intros Hk.
  pose proof (lookup_lt_Some _ _ _ Hk) as Hlt.
  rewrite scan_append_length in Hlt. split; [done|].
  rewrite scan_append_lookup in Hk by done. by injection Hk as <-.
Qed.

Lemma auditTrail_lookup_lt this events k :
  k < length (values (stateChanges this events)) →
  values (auditTrail this events) !! k
  = Some (concat (take (S k) (values (stateChanges this events)))).
Proof. intros Hk. rewrite auditTrail_scan. by apply scan_append_lookup. Qed.

(** From one emission of the trail to the next: the raw batch is appended. *)
Lemma auditTrail_next this events k earlier later :
  values (auditTrail this events) !! k = Some earlier →
  values (auditTrail this events) !! S k = Some later →
  ∃ batch, values (stateChanges this events) !! S k = Some batch
           ∧ later = earlier ++ batch.
Proof.
  intros [_ ->]%auditTrail_lookup [Hlt ->]%auditTrail_lookup.
  destruct (lookup_lt_is_Some_2 _ _ Hlt) as [batch Hbatch].
  exists batch. split; [done|].
  by rewrite (take_S_r _ _ _ Hbatch), concat_snoc.
Qed.

(** X8. The raw deltas can be read back from the audit trail: its first
    emission is the first raw batch, and every later emission is the one
    before it followed by the raw batch of that step, so dropping the earlier
    trail from the later one leaves that batch. *)
Theorem auditTrail_recovers_batches this events :
  values (auditTrail this events) !! 0 = values (stateChanges this events) !! 0
  ∧ (∀ k earlier later,
       values (auditTrail this events) !! k = Some earlier →
       values (auditTrail this events) !! S k = Some later →
       values (stateChanges this events) !! S k = Some (drop (length earlier) later)
       ∧ later = earlier ++ drop (length earlier) later).
Proof.
  split.
  - destruct (values (stateChanges this events)) as [|batch raw] eqn:Hraw.
    + rewrite auditTrail_scan, Hraw. done.
    + rewrite auditTrail_lookup_lt by (rewrite Hraw; cbn; lia).
      rewrite Hraw. cbn. by rewrite app_nil_r.
  - intros k earlier later Hearlier Hlater.
    destruct (auditTrail_next _ _ _ _ _ Hearlier Hlater) as (batch & Hbatch & ->).
    by rewrite drop_app_length.
Qed.

(** X9. With a non-empty events array the audit trail strictly grows: no
    emission is empty, and each emission is longer than the one before. *)
Theorem auditTrail_strictly_grows this e es :
  Forall (fun trail => trail ≠ []) (values (auditTrail this (Some (e :: es))))
  ∧ (∀ k earlier later,
       values (auditTrail this (Some (e :: es))) !! k = Some earlier →
       values (auditTrail this (Some (e :: es))) !! S k = Some later →
       length earlier < length later).
Proof.
  pose proof (stateChanges_filtering_nonempty this e es) as Hraw.
  split.
  - apply Forall_lookup. intros k trail [Hlt ->]%auditTrail_lookup.
    destruct (lookup_lt_is_Some_2 _ _ Hlt) as [batch Hbatch].
    rewrite (take_S_r _ _ _ Hbatch), concat_snoc.
    pose proof (Forall_lookup_1 _ _ _ _ Hraw Hbatch) as Hne.
    destruct batch; [done|]. by destruct (concat _).
  - intros k earlier later Hearlier Hlater.
    destruct (auditTrail_next _ _ _ _ _ Hearlier Hlater) as (batch & Hbatch & ->).
    pose proof (Forall_lookup_1 _ _ _ _ Hraw Hbatch) as Hne.
    rewrite length_app. destruct batch; [done|]. cbn. lia.
Qed.

Lemma last_auditTrail this events :
  last (values (auditTrail this events))
  = match values (stateChanges this events) with
    | [] => None
    | raw => Some (concat raw)
    end.
Proof.
  rewrite last_lookup.
  replace (length (values (auditTrail this events)))
    with (length (values (stateChanges this events)))
    by (rewrite auditTrail_scan; symmetry; apply scan_append_length).
  destruct (values (stateChanges this events)) as [|batch raw] eqn:Hraw.
  - rewrite auditTrail_scan, Hraw. done.
  - rewrite auditTrail_lookup_lt by (rewrite Hraw; cbn; lia).
    rewrite Hraw. by rewrite take_ge by (cbn; lia).
Qed.

(** X10. The latest emission of the audit trail holds every record the raw
    deltas have emitted so far, in order; and the trail has emitted nothing
    exactly as long as the raw deltas have emitted nothing. *)
Theorem auditTrail_latest_is_complete this events :
  (values (stateChanges this events) = [] → values (auditTrail this events) = [])
  ∧ (values (stateChanges this events) ≠ [] →
     last (values (auditTrail this events))
     = Some (concat (values (stateChanges this events)))).
Proof.
  split.
  - intros Hraw. rewrite auditTrail_scan, Hraw. done.
  - intros Hraw. rewrite last_auditTrail.
    by destruct (values (stateChanges this events)).
Qed.

Lemma auditTrail_latest_is_complete_witness :
  values (stateChanges (Fixtures.listening Fixtures.scenario) (Some [added; modified])) ≠ []
  ∧ last (values (auditTrail (Fixtures.listening Fixtures.scenario) (Some [added; modified])))
    = Some (concat (values (stateChanges (Fixtures.listening Fixtures.scenario)
                              (Some [added; modified])))).
Proof.
  split; [discriminate|].
  apply (auditTrail_latest_is_complete (Fixtures.listening Fixtures.scenario)
           (Some [added; modified])).
  discriminate.
Defined.

(** X11. With a non-empty events array every record of every emission of the
    audit trail has a type of the array. *)
Theorem auditTrail_requested_only this e es :
  Forall (Forall (fun change => type change ∈ e :: es))
    (values (auditTrail this (Some (e :: es)))).
Proof.
  apply Forall_lookup. intros k trail [_ ->]%auditTrail_lookup.
  apply Forall_concat, Forall_take, stateChanges_requested_only.
Qed.

(** X12. With the events argument absent or empty, a notification that
    reports no change makes the audit trail emit again what it emitted for
    the notification before. *)
Theorem auditTrail_unset_repeats_on_quiet this events k snap :
  events = None ∨ events = Some [] →
  values (onSnapshot (query this)) !! S k = Some snap →
  snapshot_docChanges snap = [] →
  values (auditTrail this events) !! S k = values (auditTrail this events) !! k
  ∧ is_Some (values (auditTrail this events) !! k).
Proof.
  intros Hunset Hsnap Hquiet.
  assert (values (stateChanges this events) !! S k = Some []) as Hbatch.
  { rewrite (stateChanges_unset _ _ Hunset), values_docChanges.
    rewrite list_lookup_fmap, Hsnap. change (Some (batch_of snap) = Some []).
    unfold batch_of. by rewrite Hquiet. }
  pose proof (lookup_lt_Some _ _ _ Hbatch) as Hlt.
  rewrite !auditTrail_lookup_lt by lia. split; [|by eexists].
  by rewrite (take_S_r _ _ _ Hbatch), concat_snoc, app_nil_r.
Qed.

Lemma auditTrail_unset_repeats_on_quiet_witness :
  values (onSnapshot (query (Fixtures.listening [Fixtures.first; Fixtures.quiet]))) !! 1
  = Some Fixtures.quiet
  ∧ values (auditTrail (Fixtures.listening [Fixtures.first; Fixtures.quiet]) None) !! 1
    = values (auditTrail (Fixtures.listening [Fixtures.first; Fixtures.quiet]) None) !! 0.
Proof.
  split; [reflexivity|].
  apply (auditTrail_unset_repeats_on_quiet
           (Fixtures.listening [Fixtures.first; Fixtures.quiet]) None 0 Fixtures.quiet);
    [by left | reflexivity | reflexivity].
Defined.

(** X13. Filtering commutes with accumulating: the latest audit trail under a
    non-empty events array is the latest audit trail of [auditTrail()] cut
    down to the records whose type is in the array. *)
Theorem auditTrail_filter_commutes this e es full trail :
  last (values (auditTrail this None)) = Some full →
  last (values (auditTrail this (Some (e :: es)))) = Some trail →
  trail = List.filter (requested (e :: es)) full.
Proof.
  rewrite !last_auditTrail. intros Hfull Htrail.
  pose proof (concat_stateChanges_filtering this e es) as Hconcat.
  revert Hfull Htrail Hconcat.
  destruct (values (stateChanges this None)); [done|].
  destruct (values (stateChanges this (Some (e :: es)))); [done|].
  by intros [= <-] [= <-] Hconcat.
Qed.

Lemma auditTrail_filter_commutes_witness :
  last (values (auditTrail (Fixtures.listening Fixtures.scenario) None))
  = Some (concat (batch_of <$> Fixtures.scenario))
  ∧ last (values (auditTrail (Fixtures.listening Fixtures.scenario) (Some [removed])))
    = Some (batch_of Fixtures.second)
  ∧ batch_of Fixtures.second
    = List.filter (requested [removed]) (concat (batch_of <$> Fixtures.scenario)).
Proof.
  split; [reflexivity|]. split; [reflexivity|].
  apply (auditTrail_filter_commutes (Fixtures.listening Fixtures.scenario) removed []);
    reflexivity.
Defined.

(** ** [valueChanges] *)

Lemma values_valueChanges this options :
  values (valueChanges this options)
  = (fun snap => document_value options <$> docs snap)
      <$> values (onSnapshot (query this)).
Proof.
  unfold valueChanges, keepUnstableUntilFirst, fromCollectionRef.
  rewrite !values_map, <- list_fmap_compose.
  apply list_fmap_ext. intros _ snap _. cbn.
  apply list_fmap_ext. intros _ a _.
  destruct options as [[[[|c key]|]]|]; cbn; try done. apply spread_id.
Qed.

Lemma valueChanges_lookup this options i j snap a emitted object :
  values (onSnapshot (query this)) !! i = Some snap →
  docs snap !! j = Some a →
  values (valueChanges this options) !! i = Some emitted →
  emitted !! j = Some object →
  object = document_value options a.
Proof.
  intros Hsnap Ha Hemitted Hobject.
  rewrite values_valueChanges, list_lookup_fmap, Hsnap in Hemitted.
  injection Hemitted as <-.
  rewrite list_lookup_fmap, Ha in Hobject. by injection Hobject as <-.
Qed.

(** X14. [valueChanges] emits for every notification, whatever the options:
    one list per notification, holding one object per document of the
    notification's match list, in its order; a notification with no match
    emits the empty list. *)
Theorem valueChanges_one_object_per_document this options :
  length (values (valueChanges this options)) = length (values (onSnapshot (query this)))
  ∧ (∀ i snap, values (onSnapshot (query this)) !! i = Some snap →
       ∃ objects, values (valueChanges this options) !! i = Some objects
                  ∧ length objects = length (docs snap)
                  ∧ (docs snap = [] → objects = [])).
Proof.
  rewrite values_valueChanges. split; [apply length_fmap|].
  intros i snap Hsnap. eexists. rewrite list_lookup_fmap, Hsnap.
  split; [done|]. split; [apply length_fmap|]. by intros ->.
Qed.

(** X15. The id merge touches the field [idField] only: every other field of
    an emitted object has the value, or the absence, it has in the
    document's data. *)
Theorem valueChanges_keeps_other_fields this key other i j snap a emitted object :
  other ≠ key →
  values (onSnapshot (query this)) !! i = Some snap →
  docs snap !! j = Some a →
  values (valueChanges this (Some {| idField := Some key |})) !! i = Some emitted →
  emitted !! j = Some object →
  object !! other = doc_data a !! other.
Proof.
  intros Hother Hsnap Ha Hemitted Hobject.
  rewrite (valueChanges_lookup _ _ _ _ _ _ _ _ Hsnap Ha Hemitted Hobject).
  destruct key as [|c key]; [done|]. cbn. unfold with_id.
  by rewrite lookup_insert_ne.
Qed.

Lemma valueChanges_keeps_other_fields_witness :
  "name"%string ≠ "id"%string
  ∧ with_id "id" ValueFixtures.doc2 !! "name"%string
    = doc_data ValueFixtures.doc2 !! "name"%string.
Proof.
  assert ("name"%string ≠ "id"%string) as Hother by discriminate.
  split; [exact Hother|].
  apply (valueChanges_keeps_other_fields
           (Fixtures.listening [ValueFixtures.results2]) "id"%string "name"%string 0 0
           ValueFixtures.results2 ValueFixtures.doc2
           [with_id "id" ValueFixtures.doc2] (with_id "id" ValueFixtures.doc2) Hother);
    reflexivity.
Defined.

(** X16. For a document whose data has no field named as [idField], the
    document's data is read back from the emitted object by removing that
    field. *)
Theorem valueChanges_data_read_back this key i j snap a emitted object :
  doc_data a !! key = None →
  values (onSnapshot (query this)) !! i = Some snap →
  docs snap !! j = Some a →
  values (valueChanges this (Some {| idField := Some key |})) !! i = Some emitted →
  emitted !! j = Some object →
  delete key object = doc_data a.
Proof.
  intros Hfresh Hsnap Ha Hemitted Hobject.
  rewrite (valueChanges_lookup _ _ _ _ _ _ _ _ Hsnap Ha Hemitted Hobject).
  destruct key as [|c key]; cbn.
  - by apply delete_id.
  - unfold with_id. by apply delete_insert_id.
Qed.

Lemma valueChanges_data_read_back_witness :
  doc_data ValueFixtures.doc1 !! "id"%string = None
  ∧ delete "id"%string (with_id "id" ValueFixtures.doc1) = doc_data ValueFixtures.doc1.
Proof.
  split; [reflexivity|].
  apply (valueChanges_data_read_back
           (Fixtures.listening [ValueFixtures.results]) "id"%string 0 0
           ValueFixtures.results ValueFixtures.doc1
           [with_id "id" ValueFixtures.doc1] (with_id "id" ValueFixtures.doc1));
    reflexivity.
Defined.

(** X17. [valueChanges] looks at the match lists only: two listeners whose
    notifications carry the same documents give the same values, whatever
    changes the notifications report. *)
Theorem valueChanges_ignores_changes this1 this2 options :
  docs <$> values (onSnapshot (query this1)) = docs <$> values (onSnapshot (query this2)) →
  values (valueChanges this1 options) = values (valueChanges this2 options).
Proof.
  intros Hdocs. rewrite !values_valueChanges.
  assert (∀ snaps : list QuerySnapshot,
            (fun snap => document_value options <$> docs snap) <$> snaps
            = fmap (document_value options) <$> (docs <$> snaps)) as Hsplit.
  { intros snaps. by rewrite <- list_fmap_compose. }
  by rewrite !Hsplit, Hdocs.
Qed.

Lemma valueChanges_ignores_changes_witness :
  docs <$> values (onSnapshot (query (Fixtures.listening [Fixtures.second])))
  = docs <$> values (onSnapshot (query (Fixtures.listening
               [{| docs := [Fixtures.docA; Fixtures.docC]; snapshot_docChanges := [] |}])))
  ∧ values (valueChanges (Fixtures.listening [Fixtures.second]) None)
    = values (valueChanges
                (Fixtures.listening
                   [{| docs := [Fixtures.docA; Fixtures.docC]; snapshot_docChanges := [] |}])
                None).
Proof.
  split; [reflexivity|].
  apply (valueChanges_ignores_changes (Fixtures.listening [Fixtures.second])
           (Fixtures.listening
              [{| docs := [Fixtures.docA; Fixtures.docC]; snapshot_docChanges := [] |}])
           None).
  reflexivity.
Defined.

(** ** [get] *)

(** X18. [get] yields at most one value; it yields a snapshot only if the
    fetch resolved to that snapshot; it has completed exactly when it has
    yielded its value; and it is still live exactly while the fetch is
    pending. *)
Theorem get_single_shot this options :
  length (values (get this options)) ≤ 1
  ∧ (∀ snap, snap ∈ values (get this options) ↔
             query_get (query this) options = Rx.Resolved snap)
  ∧ (ending (get this options) = Rx.Completed ↔ values (get this options) ≠ [])
  ∧ (ending (get this options) = Rx.Live ↔
     query_get (query this) options = Rx.Pending).
Proof.
  unfold get, Rx.observeOn.
  destruct (query_get (query this) options) as [snap|e|]; cbn.
  - split; [lia|]. split; [|by split].
    intros snap'. rewrite list_elem_of_singleton. split; [by intros ->|by intros [= ->]].
  - split; [lia|]. split; [|by split].
    intros snap'. split; [by intros ?%not_elem_of_nil|done].
  - split; [lia|]. split; [|by split].
    intros snap'. split; [by intros ?%not_elem_of_nil|done].
Qed.

(** ** Resuming the audit trail *)

Lemma scan_append_seed acc batches e :
  values (Rx.scan_from append_batch acc batches e)
  = app acc <$> values (Rx.scan_from append_batch [] batches e).
Proof.
  revert acc. induction batches as [|batch batches IH]; intros acc; [done|].
  cbn. rewrite (IH (acc ++ batch)), (IH batch), <- list_fmap_compose.
  f_equal. apply list_fmap_ext. intros _ trail _. cbn. by rewrite app_assoc.
Qed.

Lemma scan_append_app acc before after e :
  values (Rx.scan_from append_batch acc (before ++ after) e)
  = values (Rx.scan_from append_batch acc before e)
    ++ values (Rx.scan_from append_batch (acc ++ concat before) after e).
Proof.
  revert acc. induction before as [|batch before IH]; intros acc.
  - cbn. by rewrite app_nil_r.
  - cbn. rewrite IH. by rewrite app_assoc.
Qed.

(** X19. The audit trail starts empty at every subscription and carries on
    from what it has: over a run of notifications followed by another run it
    emits the trails of the first run, then the trails a fresh subscription
    would emit for the second run, each with all records of the first run in
    front. *)
Theorem auditTrail_resumes this events before after :
  values (auditTrail (delivering this (before ++ after)) events)
  = values (auditTrail (delivering this before) events)
    ++ (app (concat (values (stateChanges (delivering this before) events)))
          <$> values (auditTrail (delivering this after) events)).
Proof.
  rewrite !auditTrail_scan, values_stateChanges_app, scan_append_app.
  cbn [app]. rewrite (scan_append_seed (concat _)).
  f_equal; [apply values_scan_from_ending|].
  f_equal. apply values_scan_from_ending.
Qed.

Example auditTrail_resumes_sample :
  documents <$> values (auditTrail
                          (delivering (Fixtures.listening [])
                             ([Fixtures.first] ++ [Fixtures.second; Fixtures.third]))
                          (Some [added; removed]))
  = [[Fixtures.docA; Fixtures.docB; Fixtures.docC];
     [Fixtures.docA; Fixtures.docB; Fixtures.docC; Fixtures.docB]].
Proof. reflexivity. Qed.

(** ** Telling documents apart *)

(** X20. With a non-empty [idField] every emitted object carries its
    document's id under that field, so the objects of two documents with
    different ids are different, even when the documents' data are equal. *)
Theorem valueChanges_objects_identified this key i j j' snap a a' emitted object object' :
  key ≠ ""%string →
  values (onSnapshot (query this)) !! i = Some snap →
  docs snap !! j = Some a →
  docs snap !! j' = Some a' →
  values (valueChanges this (Some {| idField := Some key |})) !! i = Some emitted →
  emitted !! j = Some object →
  emitted !! j' = Some object' →
  object !! key = Some (JsString (doc_id a))
  ∧ (doc_id a ≠ doc_id a' → object ≠ object').
Proof.
  intros Hkey Hsnap Ha Ha' Hemitted Hobject Hobject'.
  rewrite (valueChanges_lookup _ _ _ _ _ _ _ _ Hsnap Ha Hemitted Hobject).
  rewrite (valueChanges_lookup _ _ _ _ _ _ _ _ Hsnap Ha' Hemitted Hobject').
  destruct key as [|c key]; [done|]. cbn. unfold with_id.
  split; [apply lookup_insert_eq|].
  intros Hids Hsame. apply (f_equal (fun o : DocumentData => o !! String c key)) in Hsame.
  rewrite !lookup_insert_eq in Hsame. congruence.
Qed.

Lemma valueChanges_objects_identified_witness :
  "id"%string ≠ ""%string
  ∧ with_id "id" Fixtures.docA !! "id"%string = Some (JsString "A")
  ∧ (doc_id Fixtures.docA ≠ doc_id Fixtures.docC →
     with_id "id" Fixtures.docA ≠ with_id "id" Fixtures.docC).
Proof.
  assert ("id"%string ≠ ""%string) as Hkey by discriminate.
  split; [exact Hkey|].
  apply (valueChanges_objects_identified
           (Fixtures.listening [Fixtures.second]) "id"%string 0 0 1
           Fixtures.second Fixtures.docA Fixtures.docC
           [with_id "id" Fixtures.docA; with_id "id" Fixtures.docC]
           (with_id "id" Fixtures.docA) (with_id "id" Fixtures.docC) Hkey);
    reflexivity.
Defined.

